(** * Ledger reconciliation: a shallow embedding of [reconcile_accounts.py]

    The development follows the Python module function by function and
    keeps its names.  Python values are modelled as follows.

    - A [str] is a [string] whose characters are the code points
      U+0000..U+00FF; [str.strip], [str.lower] and the character classes
      are the ones Python applies to these code points.
    - An exception is a value of [exn]; code that may raise returns a
      [result], and [try]/[except] is a match on the raised exception.
    - The two lists of dictionaries [processed_a] and [processed_b] are the
      two components of a [state]; an entry object is referred to by the
      list it lives in and its position, so that the mutation of an entry
      through one name is seen through every other name.
    - The [defaultdict] indices are finite maps from keys to buckets.
    - A [datetime.date] is the record of its year, month and day, and
      [strptime] the pattern it compiles for ["%Y-%m-%d"] followed by the
      calendar check.
    - A [float] is an IEEE 754 binary64 value given by sign, integer
      significand and binary exponent; [float(s)] and the format [.6f]
      round correctly, to nearest with ties to even, by integer
      arithmetic.
    - The file system and [csv.reader] are outside the module: reading
      a path is given by the rows the reader yields and the way the
      iteration ends; what the script prints is the list of its calls of
      [print] and [pprint].

    The file has five parts: the code, a variant of it that one claim
    compares it with, the definitions the statements use, the lemmas and
    claims, and further properties of the module. *)

From Stdlib Require Import ZArith Ascii String List Sorting.Sorted DecimalString.
From stdpp Require Import base tactics option list gmap strings.

#[local] Set Warnings "-clear-no-such-hyp".

Local Open Scope string_scope.
Local Open Scope Z_scope.
Local Open Scope list_scope.

(** ** Exceptions *)

Inductive exn := IndexError | ValueError | AttributeError | TypeError.

Inductive result (A : Type) : Type :=
| Ok (a : A)
| Raise (e : exn).
Arguments Ok {A} a.
Arguments Raise {A} e.

#[global] Instance result_ret : MRet result := fun _ a => Ok a.
#[global] Instance result_bind : MBind result := fun _ _ f m =>
  match m with
  | Ok a => f a
  | Raise e => Raise e
  end.

(** [seq[i]] on a list: [IndexError] when [i] is out of range. *)
Definition getitem {A} (l : list A) (i : nat) : result A :=
  match l !! i with
  | Some x => Ok x
  | None => Raise IndexError
  end.

(** ** Strings *)

Module PyStr.

Definition code (c : ascii) : Z := Z.of_N (N_of_ascii c).

(** [str.isspace] on one character. *)
Definition isspace (c : ascii) : bool :=
  let n := code c in
  ((9 <=? n) && (n <=? 13)) || ((28 <=? n) && (n <=? 32))
  || (n =? 133) || (n =? 160).

Definition isdigit (c : ascii) : bool :=
  let n := code c in (48 <=? n) && (n <=? 57).

Definition digit_val (c : ascii) : Z := code c - 48.

Definition is_empty (s : string) : bool :=
  match s with EmptyString => true | String _ _ => false end.

(** Stripping the characters of a class from both ends. *)
Fixpoint lstrip (space : ascii → bool) (s : string) : string :=
  match s with
  | EmptyString => EmptyString
  | String c s' => if space c then lstrip space s' else s
  end.

Fixpoint rstrip (space : ascii → bool) (s : string) : string :=
  match s with
  | EmptyString => EmptyString
  | String c s' =>
      let r := rstrip space s' in
      if space c && is_empty r then EmptyString else String c r
  end.

(** [s.strip()] *)
Definition strip (s : string) : string := rstrip isspace (lstrip isspace s).

Definition lower_char (c : ascii) : ascii :=
  let n := code c in
  if ((65 <=? n) && (n <=? 90))
     || ((192 <=? n) && (n <=? 222) && negb (n =? 215))
  then ascii_of_N (Z.to_N (n + 32)) else c.

(** [s.lower()] *)
Fixpoint lower (s : string) : string :=
  match s with
  | EmptyString => EmptyString
  | String c s' => String (lower_char c) (lower s')
  end.

End PyStr.

(** ** Input rows and [normalize_row] *)

(** A cell of an input row: [None], or any other object, given by the text
    [str(cell)] produces. *)
Inductive cell := CNone | CText (s : string).

(** An input row: a [list] or [tuple] of cells, or an object of another type. *)
Inductive raw_row := RowSeq (cells : list cell) | RowOther.

Definition normalize_row (row : raw_row) : list string :=
  let row := match row with RowSeq cells => cells | RowOther => [] end in
  let padded_row := take 4 (row ++ replicate 4 (CText EmptyString))%list in
  (fun cell => match cell with
               | CNone => EmptyString
               | CText s => PyStr.strip s
               end) <$> padded_row.

(** ** Dates: [datetime.date] and [datetime.strptime] with ["%Y-%m-%d"] *)

Module PyDate.

Record date := Date { year : Z; month : Z; day : Z }.

Definition is_leap (y : Z) : bool :=
  (y mod 4 =? 0) && (negb (y mod 100 =? 0) || (y mod 400 =? 0)).

Definition days_in_month (y m : Z) : Z :=
  if m =? 2 then (if is_leap y then 29 else 28)
  else if (m =? 4) || (m =? 6) || (m =? 9) || (m =? 11) then 30 else 31.

Definition days_before_year (y : Z) : Z :=
  let y := y - 1 in y * 365 + y / 4 - y / 100 + y / 400.

Definition days_before_month (y m : Z) : Z :=
  nth (Z.to_nat m) [0; 0; 31; 59; 90; 120; 151; 181; 212; 243; 273; 304; 334] 0
  + (if (2 <? m) && is_leap y then 1 else 0).

(** [d.toordinal()] *)
Definition toordinal (d : date) : Z :=
  days_before_year (year d) + days_before_month (year d) (month d) + day d.

(** [date(y, m, d)]: [ValueError] outside the calendar. *)
Definition new (y m d : Z) : result date :=
  if (1 <=? y) && (y <=? 9999) && (1 <=? m) && (m <=? 12)
     && (1 <=? d) && (d <=? days_in_month y m)
  then Ok (Date y m d) else Raise ValueError.

(** [d1 < d2] *)
Definition lt (d1 d2 : date) : bool :=
  (year d1 <? year d2)
  || ((year d1 =? year d2)
      && ((month d1 <? month d2)
          || ((month d1 =? month d2) && (day d1 <? day d2)))).

(** [(d1 - d2).days] *)
Definition sub_days (d1 d2 : date) : Z := toordinal d1 - toordinal d2.

(** The pattern [strptime] compiles for ["%Y-%m-%d"] is
    [(\d\d\d\d)-(1[0-2]|0[1-9]|[1-9])-(3[0-1]|[1-2]\d|0[1-9]|[1-9]| [1-9])].
    A pattern is a sequence of items, an item a list of alternatives, an
    alternative a sequence of character classes. *)
Definition class := ascii -> bool.

Definition lit (c : ascii) : class := fun x => PyStr.code x =? PyStr.code c.
Definition range (lo hi : ascii) : class :=
  fun x => (PyStr.code lo <=? PyStr.code x) && (PyStr.code x <=? PyStr.code hi).

Definition format_regex : list (list (list class)) :=
  [ [ [PyStr.isdigit; PyStr.isdigit; PyStr.isdigit; PyStr.isdigit] ];
    [ [lit "-"] ];
    [ [lit "1"; range "0" "2"]; [lit "0"; range "1" "9"]; [range "1" "9"] ];
    [ [lit "-"] ];
    [ [lit "3"; range "0" "1"]; [range "1" "2"; PyStr.isdigit];
      [lit "0"; range "1" "9"]; [range "1" "9"]; [lit " "; range "1" "9"] ] ]%char.

Fixpoint match_classes (cs : list class) (l : list ascii)
  : option (list ascii * list ascii) :=
  match cs with
  | [] => Some ([], l)
  | p :: cs' =>
      match l with
      | c :: l' =>
          if p c then
            match match_classes cs' l' with
            | Some (txt, r) => Some (c :: txt, r)
            | None => None
            end
          else None
      | [] => None
      end
  end.

(** [re.match]: the first way, in the order of the alternatives, to match
    all the items at the start of [l]; the texts of the items and the
    unmatched rest. *)
Fixpoint re_match (items : list (list (list class))) (l : list ascii)
  : option (list (list ascii) * list ascii) :=
  match items with
  | [] => Some ([], l)
  | alts :: items' =>
      head (omap (fun alt =>
                    match match_classes alt l with
                    | Some (txt, r) =>
                        match re_match items' r with
                        | Some (gs, rest) => Some (txt :: gs, rest)
                        | None => None
                        end
                    | None => None
                    end) alts)
  end.

(** [int(text)] for the text of a group: digits after optional blanks. *)
Definition int_of_text (txt : list ascii) : Z :=
  fold_left (fun acc c => if PyStr.isdigit c then 10 * acc + PyStr.digit_val c else acc)
            txt 0.

(** [datetime.strptime(data_string, "%Y-%m-%d").date()] *)
Definition strptime (data_string : string) : result date :=
  match re_match format_regex (list_ascii_of_string data_string) with
  | None => Raise ValueError
  | Some (groups, rest) =>
      match rest, groups with
      | [], [Y; _; m; _; d] => new (int_of_text Y) (int_of_text m) (int_of_text d)
      | _, _ => Raise ValueError
      end
  end.

End PyDate.

Abbreviation date := PyDate.date.

(** [parse_date]: the date, or [None] when [strptime] raises. *)
Definition parse_date (date_str : string) : result (option date) :=
  match PyDate.strptime (PyStr.strip date_str) with
  | Ok d => Ok (Some d)
  | Raise ValueError | Raise AttributeError => Ok None
  | Raise e => Raise e
  end.

(** ** Floats: [float(s)] and the format [.6f] *)

Module PyFloat.

(** A binary64 value: [Fin neg m e] is [(-1)^neg * m * 2^e] with
    [0 <= m < 2^53] and [-1074 <= e <= 971], [m >= 2^52] unless
    [e = -1074]. *)
Inductive float :=
| NaN
| Inf (neg : bool)
| Fin (neg : bool) (m : Z) (e : Z).

(** The integer nearest to [n / d], ties to even ([0 < d]). *)
Definition round_half_even (n d : Z) : Z :=
  let q := n / d in
  match 2 * (n mod d) ?= d with
  | Lt => q
  | Gt => q + 1
  | Eq => if Z.even q then q else q + 1
  end.

(** The binary64 value nearest to [n / d] ([0 <= n], [0 < d]): what
    the correctly rounded conversion of a decimal numeral returns. *)
Definition of_ratio (neg : bool) (n d : Z) : float :=
  if n =? 0 then Fin neg 0 (-1074) else
  let l := Z.log2 n - Z.log2 d in
  let fl := if (if 0 <=? l then d * 2 ^ l <=? n else d <=? n * 2 ^ (- l))
            then l else l - 1 in
  let e := Z.max (fl - 52) (-1074) in
  let q := if 0 <=? e then round_half_even n (d * 2 ^ e)
           else round_half_even (n * 2 ^ (- e)) d in
  let (m, e) := if q =? 2 ^ 53 then (2 ^ 52, e + 1) else (q, e) in
  if 971 <? e then Inf neg else Fin neg m e.

(** Underscores of a numeral: each one between two digits. *)
Fixpoint drop_underscores (prev : ascii) (l : list ascii) : option (list ascii) :=
  match l with
  | [] => if PyDate.lit "_" prev then None else Some []
  | c :: r =>
      if PyDate.lit "_" c then
        if PyStr.isdigit prev then drop_underscores c r else None
      else if PyDate.lit "_" prev && negb (PyStr.isdigit c) then None
      else (c ::.) <$> drop_underscores c r
  end.

Definition sign (l : list ascii) : bool * list ascii :=
  match l with
  | c :: r => if PyDate.lit "-" c then (true, r)
              else if PyDate.lit "+" c then (false, r) else (false, l)
  | [] => (false, l)
  end.

Fixpoint span_digits (l : list ascii) : list ascii * list ascii :=
  match l with
  | c :: r => if PyStr.isdigit c
              then let (ds, rest) := span_digits r in (c :: ds, rest)
              else ([], l)
  | [] => ([], [])
  end.

Definition parse_inf_or_nan (l : list ascii) : option float :=
  let (neg, r) := sign l in
  let w := PyStr.lower (string_of_list_ascii r) in
  if String.eqb w "inf" || String.eqb w "infinity" then Some (Inf neg)
  else if String.eqb w "nan" then Some NaN
  else None.

Definition is_nil {A} (l : list A) : bool :=
  match l with [] => true | _ => false end.

(** A decimal numeral [sign digits [. digits] [e sign digits]] with at
    least one digit before the exponent: its sign, the integer its
    digits spell and its power of ten. *)
Definition parse_decimal (l : list ascii) : option (bool * Z * Z) :=
  let (neg, l1) := sign l in
  let (ip, l2) := span_digits l1 in
  let (fp, l3) := match l2 with
                  | c :: r => if PyDate.lit "." c then span_digits r else ([], l2)
                  | [] => ([], l2)
                  end in
  if is_nil ip && is_nil fp then None else
  let m := PyDate.int_of_text (ip ++ fp)%list in
  let k := Z.of_nat (length fp) in
  match l3 with
  | [] => Some (neg, m, - k)
  | c :: r =>
      if PyDate.lit "e" c || PyDate.lit "E" c then
        let (eneg, r1) := sign r in
        let (ed, r2) := span_digits r1 in
        if negb (is_nil ed) && is_nil r2 then
          let x := PyDate.int_of_text ed in
          Some (neg, m, (if eneg then - x else x) - k)
        else None
      else None
  end.

(** The blanks [float] strips: those of [str.strip] but the four
    separators U+001C..U+001F. *)
Definition isspace (c : ascii) : bool :=
  let n := PyStr.code c in
  ((9 <=? n) && (n <=? 13)) || (n =? 32) || (n =? 133) || (n =? 160).

(** [float(s)] for a [str]: [ValueError] unless [s], stripped, is a
    numeral, an infinity or a NaN. *)
Definition of_str (s : string) : result float :=
  match drop_underscores "000"%char
          (list_ascii_of_string (PyStr.rstrip isspace (PyStr.lstrip isspace s))) with
  | None => Raise ValueError
  | Some l =>
      match parse_inf_or_nan l with
      | Some x => Ok x
      | None =>
          match parse_decimal l with
          | Some (neg, m, k) =>
              Ok (if 0 <=? k then of_ratio neg (m * 10 ^ k) 1
                  else of_ratio neg m (10 ^ (- k)))
          | None => Raise ValueError
          end
      end
  end.

Definition digit_char (k : Z) : ascii := ascii_of_N (Z.to_N (48 + k)).

Definition sign_str (neg : bool) : string := if neg then "-" else EmptyString.

(** The six digits of [r], [0 <= r < 10^6]. *)
Definition frac6 (r : Z) : string :=
  string_of_list_ascii
    ((fun p => digit_char ((r / 10 ^ p) mod 10)) <$> [5; 4; 3; 2; 1; 0]).

(** [format(x, ".6f")]: the value rounded to a multiple of [10^-6], ties
    to even. *)
Definition format_6f (x : float) : string :=
  match x with
  | NaN => "nan"
  | Inf neg => sign_str neg +:+ "inf"
  | Fin neg m e =>
      let q := if 0 <=? e then m * 10 ^ 6 * 2 ^ e
               else round_half_even (m * 10 ^ 6) (2 ^ (- e)) in
      sign_str neg +:+ NilZero.string_of_uint (N.to_uint (Z.to_N (q / 10 ^ 6)))
        +:+ "." +:+ frac6 (q mod 10 ^ 6)
  end.

End PyFloat.

(** ** The processed lists *)

(** One dictionary [{'original_row': .., 'status': .., 'matched': ..}]. *)
Record entry := Entry {
  original_row : list string;
  status : string;
  matched : bool
}.

(** The two lists of entries [reconcile_accounts] creates and mutates. *)
Record state := State {
  processed_a : list entry;
  processed_b : list entry
}.

Inductive side := A | B.

(** A reference to an entry object: the list it belongs to and its position. *)
Definition ref : Type := side * nat.

Definition entries (s : side) (σ : state) : list entry :=
  match s with A => processed_a σ | B => processed_b σ end.

Definition set_entries (s : side) (l : list entry) (σ : state) : state :=
  match s with
  | A => State l (processed_b σ)
  | B => State (processed_a σ) l
  end.

Definition deref (σ : state) (r : ref) : result entry :=
  getitem (entries r.1 σ) r.2.

Definition set_status (v : string) (e : entry) : entry :=
  Entry (original_row e) v (matched e).

Definition set_matched (v : bool) (e : entry) : entry :=
  Entry (original_row e) (status e) v.

(** [entry[field] = v] through a reference to the entry. *)
Definition assign (r : ref) (f : entry → entry) (σ : state) : state :=
  set_entries r.1 (alter f r.2 (entries r.1 σ)) σ.

(** [lst[i][field] = v]: the list is indexed first. *)
Definition assign_item (s : side) (i : nat) (f : entry → entry) (σ : state)
  : result state :=
  _ ← getitem (entries s σ) i; Ok (assign (s, i) f σ).

(** ** [create_index_key] *)

Definition create_index_key (row : list string) : result (string * string * string) :=
  normalized_value_str ←
    (amount ← getitem row 2;
     match PyFloat.of_str amount with
     | Ok x => Ok (PyFloat.format_6f x)
     | Raise ValueError => getitem row 2
     | Raise e => Raise e
     end);
  department ← getitem row 1;
  beneficiary ← getitem row 3;
  Ok (PyStr.lower department, normalized_value_str, PyStr.lower beneficiary).

(** ** The indices *)

(** [bucket.sort(key=lambda x: x[0])]: a stable sort on the dates, which
    compares them with [<] only. *)
Fixpoint insert_by_date (x : date * nat) (l : list (date * nat)) : list (date * nat) :=
  match l with
  | [] => [x]
  | y :: l' => if PyDate.lt y.1 x.1 then y :: insert_by_date x l' else x :: l
  end.

Definition sort_by_date (l : list (date * nat)) : list (date * nat) :=
  foldr insert_by_date [] l.

(** An index: the buckets of [(date, position)] pairs by key. *)
Abbreviation index := (gmap (string * string * string) (list (date * nat))).

(** The loop over [enumerate(processed)] that fills the [defaultdict]. *)
Fixpoint index_entries (idx : nat) (processed : list entry) (indexed : index)
  : result index :=
  match processed with
  | [] => Ok indexed
  | entry :: rest =>
      let row := original_row entry in
      date_str ← getitem row 0;
      d ← parse_date date_str;
      match d with
      | Some d =>
          key ← create_index_key row;
          index_entries (S idx) rest
            (<[key := (default [] (indexed !! key) ++ [(d, idx)])%list]> indexed)
      | None => index_entries (S idx) rest indexed
      end
  end.

Definition build_index (processed : list entry) : result index :=
  index_entries 0 processed ∅ ≫= λ indexed : index, Ok (sort_by_date <$> indexed).

(** ** [find_and_mark] *)

(** The [for] loop over the bucket. *)
Fixpoint scan (source_entry : ref) (source_date : date)
    (target_processed_list : side) (bucket : list (date * nat)) (σ : state)
  : result (string * state) :=
  match bucket with
  | [] => Ok ("MISSING", σ)
  | (target_date, target_idx) :: rest =>
      target ← getitem (entries target_processed_list σ) target_idx;
      if negb (matched target) then
        let date_diff := Z.abs (PyDate.sub_days source_date target_date) in
        if date_diff <=? 1 then
          let σ := assign source_entry (set_status "FOUND") σ in
          let σ := assign source_entry (set_matched true) σ in
          σ ← assign_item target_processed_list target_idx (set_status "FOUND") σ;
          σ ← assign_item target_processed_list target_idx (set_matched true) σ;
          Ok ("FOUND", σ)
        else scan source_entry source_date target_processed_list rest σ
      else scan source_entry source_date target_processed_list rest σ
  end.

Definition find_and_mark (source_entry : ref)
    (target_indexed_data : index)
    (target_processed_list : side) (σ : state) : result (string * state) :=
  source ← deref σ source_entry;
  let source_row := original_row source in
  date_str ← getitem source_row 0;
  source_date ← parse_date date_str;
  match source_date with
  | None => Ok ("MISSING", σ)
  | Some source_date =>
      key ← create_index_key source_row;
      match target_indexed_data !! key with
      | None => Ok ("MISSING", σ)
      | Some bucket => scan source_entry source_date target_processed_list bucket σ
      end
  end.

(** ** [reconcile_accounts] *)

(** One passage: [for entry in source: if not entry['matched']:
    find_and_mark(entry, index, target)], over the positions of the
    source list. *)
Definition visit (source : side)
    (target_indexed_data : index)
    (target : side) (i : nat) (σ : state) : result state :=
  e ← deref σ (source, i);
  if negb (matched e)
  then r ← find_and_mark (source, i) target_indexed_data target σ; Ok r.2
  else Ok σ.

Fixpoint passage (source : side)
    (target_indexed_data : index)
    (target : side) (positions : list nat) (σ : state) : result state :=
  match positions with
  | [] => Ok σ
  | i :: rest =>
      σ ← visit source target_indexed_data target i σ;
      passage source target_indexed_data target rest σ
  end.

Definition preprocess (transactions : list raw_row) : list entry :=
  (fun row => Entry (normalize_row row) "MISSING" false) <$> transactions.

Definition result_rows (processed : list entry) : list (list string) :=
  (fun entry => (original_row entry ++ [status entry])%list) <$> processed.

Definition reconcile_accounts (transactions_a transactions_b : list raw_row)
  : result (list (list string) * list (list string)) :=
  let σ := State (preprocess transactions_a) (preprocess transactions_b) in
  build_index (processed_b σ) ≫= λ indexed_b : index,
  build_index (processed_a σ) ≫= λ indexed_a : index,
  σ ← passage A indexed_b B (seq 0 (length (processed_a σ))) σ;
  σ ← passage B indexed_a A (seq 0 (length (processed_b σ))) σ;
  Ok (result_rows (processed_a σ), result_rows (processed_b σ)).

(** ** Reading the ledgers: [read_csv_file] and the script

    The file system and [csv.reader] are outside the module.  Opening a
    path and iterating the reader is given by a [reading]: the rows the
    reader yields, each a list of [str], and then either the end of the
    file or the exception that [open] or the iteration raises. *)

(** An exception of the classes [read_csv_file] handles, with the text
    [str(e)], or of another class. *)
Inductive read_error :=
| IOError (msg : string)
| CsvError (msg : string)
| OtherError (e : exn).

Record reading := Reading {
  yielded : list (list string);
  stopped : option read_error
}.

Definition filesystem : Type := string → reading.

(** What the script writes: a call of [print] or a call of [pprint]. *)
Inductive output :=
| Print (text : string)
| PPrint (value : list (list string)).

(** A row of [str] cells, as an argument of [normalize_row]. *)
Definition csv_row (row : list string) : raw_row := RowSeq (CText <$> row).

(** [row and row[0].strip().startswith('#')] *)
Definition is_comment (row : list string) : bool :=
  match row with
  | [] => false
  | cell :: _ => String.prefix "#" (PyStr.strip cell)
  end.

(** [all(cell == "" for cell in normalized)] *)
Definition all_empty (normalized : list string) : bool :=
  forallb (λ cell, String.eqb cell EmptyString) normalized.

(** The [for] loop of [read_csv_file] over the rows the reader yields,
    with the list [rows] built so far. *)
Fixpoint read_rows (reader : list (list string)) (stop : option read_error)
    (rows : list (list string)) : read_error + list (list string) :=
  match reader with
  | [] => match stop with Some e => inl e | None => inr rows end
  | row :: reader =>
      if is_comment row then read_rows reader stop rows
      else
        let normalized := normalize_row (csv_row row) in
        if all_empty normalized then read_rows reader stop rows
        else read_rows reader stop (rows ++ [normalized])
  end.

Definition read_csv_file (fs : filesystem) (file_path : string)
  : list output * result (list (list string)) :=
  match read_rows (yielded (fs file_path)) (stopped (fs file_path)) [] with
  | inr rows => ([], Ok rows)
  | inl (IOError msg) | inl (CsvError msg) =>
      ([Print ("Erro ao ler o arquivo CSV " ++ file_path ++ ": " ++ msg)%string], Ok [])
  | inl (OtherError e) => ([], Raise e)
  end.

(** A computation of the script: what it has written, and its result. *)
Definition script (X : Type) : Type := list output * result X.

Definition script_bind {X Y : Type} (m : script X) (k : X → script Y) : script Y :=
  match m.2 with
  | Ok x => (m.1 ++ (k x).1, (k x).2)
  | Raise e => (m.1, Raise e)
  end.

Definition script_print (o : output) : script unit := ([o], Ok tt).

Definition script_lift {X : Type} (r : result X) : script X := ([], r).

(** The block under [if __name__ == "__main__"]. *)
Definition main (fs : filesystem) : script unit :=
  let path1 := "transactions1.csv" in
  let path2 := "transactions2.csv" in
  script_bind (read_csv_file fs path1) (λ transactions1,
  script_bind (read_csv_file fs path2) (λ transactions2,
  script_bind (script_lift (reconcile_accounts (csv_row <$> transactions1)
                                               (csv_row <$> transactions2))) (λ out,
  script_bind (script_print (Print "Resultado para transactions1:")) (λ _,
  script_bind (script_print (PPrint out.1)) (λ _,
  script_bind (script_print
                 (Print (String (ascii_of_nat 10) "Resultado para transactions2:"))) (λ _,
  script_print (PPrint out.2))))))).

(** * The variant of claim C9 *)

(** The variant of C9, after the words of the claim: the index over A is
    built only after the first passage, and its loop leaves out the
    entries that are already matched. *)
Fixpoint index_unmatched_entries (idx : nat) (processed : list entry) (indexed : index)
  : result index :=
  match processed with
  | [] => Ok indexed
  | entry :: rest =>
      if matched entry then index_unmatched_entries (S idx) rest indexed
      else
        let row := original_row entry in
        date_str ← getitem row 0;
        d ← parse_date date_str;
        match d with
        | Some d =>
            key ← create_index_key row;
            index_unmatched_entries (S idx) rest
              (<[key := default [] (indexed !! key) ++ [(d, idx)]]> indexed)
        | None => index_unmatched_entries (S idx) rest indexed
        end
  end.

Definition build_index_unmatched (processed : list entry) : result index :=
  index_unmatched_entries 0 processed ∅
  ≫= λ indexed : index, Ok (sort_by_date <$> indexed).

Definition reconcile_accounts_late (transactions_a transactions_b : list raw_row)
  : result (list (list string) * list (list string)) :=
  let σ := State (preprocess transactions_a) (preprocess transactions_b) in
  build_index (processed_b σ) ≫= λ indexed_b : index,
  σ ← passage A indexed_b B (seq 0 (length (processed_a σ))) σ;
  build_index_unmatched (processed_a σ) ≫= λ indexed_a : index,
  σ ← passage B indexed_a A (seq 0 (length (processed_b σ))) σ;
  Ok (result_rows (processed_a σ), result_rows (processed_b σ)).

(** * Specification-level definitions *)

#[global] Instance date_eq_dec : EqDecision date.
Proof. solve_decision. Defined.

#[global] Instance side_eq_dec : EqDecision side.
Proof. solve_decision. Defined.

(** The date a date field denotes, if any. *)
Definition date_of (date_str : string) : option date :=
  match PyDate.strptime (PyStr.strip date_str) with
  | Ok d => Some d
  | Raise _ => None
  end.

(** The amount component of a key. *)
Definition amount_key (amount : string) : string :=
  match PyFloat.of_str amount with
  | Ok x => PyFloat.format_6f x
  | Raise _ => amount
  end.

Definition field (row : list string) (i : nat) : string :=
  default EmptyString (row !! i).

(** The key of a row of four fields. *)
Definition key_of (row : list string) : string * string * string :=
  (PyStr.lower (field row 1), amount_key (field row 2), PyStr.lower (field row 3)).

Definition row_date (row : list string) : option date := date_of (field row 0).

(** The entry both [find_and_mark] assignments leave behind. *)
Definition found (e : entry) : entry := Entry (original_row e) "FOUND" true.

Definition mark (r : ref) (σ : state) : state := assign r found σ.

(** A candidate of a bucket that the scan accepts. *)
Definition acceptable (source_date : date) (targets : list entry) (c : date * nat) : bool :=
  match targets !! c.2 with
  | Some t => negb (matched t) && (Z.abs (PyDate.sub_days source_date c.1) <=? 1)
  | None => false
  end.

(** The candidate [find_and_mark] accepts for a source row, if any. *)
Definition choose (tix : index) (targets : list entry) (row : list string)
  : option (date * nat) :=
  match row_date row with
  | Some sd =>
      match tix !! key_of row with
      | Some bucket => List.find (acceptable sd targets) bucket
      | None => None
      end
  | None => None
  end.

(** The effect of one visit of a passage. *)
Definition visited (s : side) (tix : index) (t : side) (σ : state) (i : nat) : state :=
  match entries s σ !! i with
  | Some e =>
      if matched e then σ
      else match choose tix (entries t σ) (original_row e) with
           | Some c => mark (t, c.2) (mark (s, i) σ)
           | None => σ
           end
  | None => σ
  end.

(** The pairs of a bucket in list order, before sorting. *)
Fixpoint candidates (keep : entry → bool) (k : string * string * string)
    (idx : nat) (l : list entry) : list (date * nat) :=
  match l with
  | [] => []
  | e :: rest =>
      match row_date (original_row e) with
      | Some d =>
          if keep e && bool_decide (key_of (original_row e) = k)
          then (d, idx) :: candidates keep k (S idx) rest
          else candidates keep k (S idx) rest
      | None => candidates keep k (S idx) rest
      end
  end.

Definition extend (o : option (list (date * nat))) (c : list (date * nat))
  : option (list (date * nat)) :=
  match c with
  | [] => o
  | _ => Some (default [] o ++ c)%list
  end.

Definition rows4 (l : list entry) : Prop :=
  Forall (λ e, length (original_row e) = 4%nat) l.

(** Every position stored in the index is a position of the list. *)
Definition in_range (tix : index) (n : nat) : Prop :=
  ∀ k bucket c, tix !! k = Some bucket → c ∈ bucket → (c.2 < n)%nat.

(** Ascending dates. *)
Definition ascending (l : list (date * nat)) : Prop :=
  StronglySorted (λ x y, PyDate.lt y.1 x.1 = false) l.

(** Ascending dates, and ascending positions among equal dates. *)
Definition before (x y : date * nat) : Prop :=
  PyDate.lt x.1 y.1 = true ∨ (x.1 = y.1 ∧ (x.2 < y.2)%nat).

(** The state [reconcile_accounts] starts from. *)
Definition initial (ta tb : list raw_row) : state :=
  State (preprocess ta) (preprocess tb).

(** The run of [reconcile_accounts] stopped after the first [n] visits of
    the first passage and the first [m] visits of the second. *)
Definition run (ta tb : list raw_row) (n m : nat) : result state :=
  let σ := initial ta tb in
  build_index (processed_b σ) ≫= λ indexed_b : index,
  build_index (processed_a σ) ≫= λ indexed_a : index,
  σ ← passage A indexed_b B (seq 0 n) σ;
  passage B indexed_a A (seq 0 m) σ.

(** The state after [t] visits, counted over both passages. *)
Definition point (ta tb : list raw_row) (t : nat) : result state :=
  run ta tb (t `min` length ta) (t - length ta).

Definition flag (l : list entry) (i : nat) : option bool := matched <$> l !! i.

(** The positions whose entry is matched after a step and was not before. *)
Definition newly_matched (before after : list entry) : list nat :=
  filter (λ i, flag before i = Some false ∧ flag after i = Some true)
         (seq 0 (length before)).

(** The pairs of entries of A and B a step marks together. *)
Definition new_pairs (σ σ' : state) : list (nat * nat) :=
  i ← newly_matched (processed_a σ) (processed_a σ');
  j ← newly_matched (processed_b σ) (processed_b σ');
  [(i, j)].

(** The pairs marked during the first [t] visits of a run. *)
Definition pairs_upto (ta tb : list raw_row) (t : nat) : list (nat * nat) :=
  t ← seq 0 t;
  match point ta tb t, point ta tb (S t) with
  | Ok σ, Ok σ' => new_pairs σ σ'
  | _, _ => []
  end.

Definition matched_pairs (ta tb : list raw_row) : list (nat * nat) :=
  pairs_upto ta tb (length ta + length tb).

(** Two rows that [find_and_mark] may pair. *)
Definition compatible (ra rb : list string) : Prop :=
  key_of ra = key_of rb
  ∧ ∃ da db, row_date ra = Some da ∧ row_date rb = Some db
             ∧ Z.abs (PyDate.sub_days da db) ≤ 1.

(** The index a list of entries has, whatever their marks. *)
Definition index_of (l : list entry) : index :=
  match build_index l with Ok ix => ix | Raise _ => ∅ end.

Definition step (ta tb : list raw_row) (σ : state) (t : nat) : state :=
  if decide (t < length ta)%nat
  then visited A (index_of (preprocess tb)) B σ t
  else visited B (index_of (preprocess ta)) A σ (t - length ta).

(** The states of the functional description of a run. *)
Definition states (ta tb : list raw_row) (t : nat) : state :=
  foldl (step ta tb) (initial ta tb) (seq 0 t).

Definition consistent (e : entry) : Prop :=
  (matched e = true ∧ status e = "FOUND") ∨ (matched e = false ∧ status e = "MISSING").

(** The index of the target list, built before any mark. *)
Definition indexes (tix : index) (targets : list entry) : Prop :=
  ∃ l0, rows4 l0 ∧ tix = index_of l0 ∧ original_row <$> l0 = original_row <$> targets.

(** The number of entries with status FOUND. *)
Definition found_count (l : list entry) : nat :=
  length (filter (λ e, status e = "FOUND") l).

(** The normalized rows of a ledger. *)
Definition rows (t : list raw_row) : list (list string) := normalize_row <$> t.

(** What holds after [n] visits of the first passage. *)
Record invariant (ta tb : list raw_row) (n : nat) : Prop := Invariant {
  inv_consistent_a : Forall consistent (processed_a (states ta tb n));
  inv_consistent_b : Forall consistent (processed_b (states ta tb n));
  inv_nodup_a : NoDup (pairs_upto ta tb n).*1;
  inv_nodup_b : NoDup (pairs_upto ta tb n).*2;
  inv_matched_a : ∀ i,
    i ∈ (pairs_upto ta tb n).*1 ↔ flag (processed_a (states ta tb n)) i = Some true;
  inv_matched_b : ∀ j,
    j ∈ (pairs_upto ta tb n).*2 ↔ flag (processed_b (states ta tb n)) j = Some true;
  inv_pairs : ∀ i j, (i, j) ∈ pairs_upto ta tb n →
    ∃ ra rb, rows ta !! i = Some ra ∧ rows tb !! j = Some rb ∧ compatible ra rb;
  inv_unvisited : ∀ i, (n ≤ i)%nat → flag (processed_a (states ta tb n)) i ≠ Some true;
  inv_maximal : ∀ i j ra rb, (i < n)%nat →
    rows ta !! i = Some ra → rows tb !! j = Some rb → compatible ra rb →
    flag (processed_a (states ta tb n)) i = Some true
    ∨ flag (processed_b (states ta tb n)) j = Some true;
  inv_count :
    found_count (processed_a (states ta tb n)) = length (pairs_upto ta tb n)
    ∧ found_count (processed_b (states ta tb n)) = length (pairs_upto ta tb n)
}.

(** The cells of an input row that [normalize_row] reads. *)
Definition cells_of (row : raw_row) : list cell :=
  match row with RowSeq cells => cells | RowOther => [] end.

(** The text of a field before stripping: [str(cell)], or nothing for a
    missing or [None] cell. *)
Definition cell_text (row : raw_row) (j : nat) : string :=
  match cells_of row !! j with
  | Some (CText s) => s
  | Some CNone | None => EmptyString
  end.

(** Row [i] of a result list carries the status FOUND. *)
Definition is_found (res : list (list string)) (i : nat) : Prop :=
  ∃ row, res !! i = Some row ∧ row !! 4%nat = Some "FOUND".

Definition found_rows (res : list (list string)) : list (list string) :=
  filter (λ row, row !! 4%nat = Some "FOUND") res.

(** Row [i] of a result list carries the status MISSING. *)
Definition is_missing (res : list (list string)) (i : nat) : Prop :=
  ∃ row, res !! i = Some row ∧ row !! 4%nat = Some "MISSING".

(** The date field of an input row, as the code reads it. *)
Definition date_field (row : raw_row) : string := field (normalize_row row) 0.

(** No other record of the ledger [t] is in the bucket of [k]. *)
Definition sole_candidate (t : list raw_row) (i : nat) (k : string * string * string)
  : Prop :=
  ∀ i' row', t !! i' = Some row' → i' ≠ i →
    create_index_key (normalize_row row') = Ok k →
    parse_date (date_field row') = Ok None.

(** Two ledgers of one record each, one day apart. *)
Definition ledger_jan1 : list raw_row :=
  [RowSeq [CText "2024-01-01"; CText "Sales"; CText "100.00"; CText "Alice"]].

Definition ledger_jan2 : list raw_row :=
  [RowSeq [CText "2024-01-02"; CText "Sales"; CText "100.00"; CText "Alice"]].

Definition all_digits (s : string) : bool :=
  forallb PyStr.isdigit (list_ascii_of_string s).

(** A numeral with exactly six decimal places: an optional minus sign,
    digits, a point and six digits. *)
Definition six_decimals (s : string) : Prop :=
  ∃ sg ip fr,
    s = sg +:+ ip +:+ "." +:+ fr
    ∧ (sg = EmptyString ∨ sg = "-")
    ∧ ip ≠ EmptyString ∧ all_digits ip = true
    ∧ all_digits fr = true ∧ String.length fr = 6%nat.

(** Every pair of the index points at an entry of the list with that key
    and date. *)
Definition index_sound (tix : index) (targets : list entry) : Prop :=
  ∀ k bucket d j, tix !! k = Some bucket → (d, j) ∈ bucket →
    ∃ et, targets !! j = Some et ∧ row_date (original_row et) = Some d
          ∧ key_of (original_row et) = k.

(** What holds after [n] visits of the first passage, about the order in
    which the records of A are served. *)
Definition served (ta tb : list raw_row) (n : nat) : Prop :=
  (∀ i j ra rb, (i < n)%nat →
     rows ta !! i = Some ra → rows tb !! j = Some rb → compatible ra rb →
     flag (processed_a (states ta tb n)) i = Some true
     ∨ ∃ i', (i' < i)%nat ∧ (i', j) ∈ pairs_upto ta tb n)
  ∧ (∀ i j j' ra rb rb' d d', (i, j) ∈ pairs_upto ta tb n →
       rows ta !! i = Some ra → rows tb !! j = Some rb → rows tb !! j' = Some rb' →
       compatible ra rb' → row_date rb = Some d → row_date rb' = Some d' →
       before (d', j') (d, j) →
       ∃ i', (i' < i)%nat ∧ (i', j') ∈ pairs_upto ta tb n).

(** The rows of a file that [read_csv_file] keeps, as the docstring has
    it: neither comments nor blank. *)
Definition kept (row : list string) : bool :=
  negb (is_comment row) && negb (all_empty (normalize_row (csv_row row))).

(** The ledger a successful reading stands for. *)
Definition ledger (rows : list (list string)) : list (list string) :=
  (λ row, normalize_row (csv_row row)) <$> filter (λ row, kept row = true) rows.

(** * The Python runtime model *)

Section runtime.

Lemma getitem_Some {X} (l : list X) i x : l !! i = Some x → getitem l i = Ok x.
Proof. unfold getitem. by intros ->. Qed.

Lemma getitem_lt {X} (l : list X) i :
  (i < length l)%nat → ∃ x, l !! i = Some x ∧ getitem l i = Ok x.
Proof.
  intros [x Hx]%lookup_lt_is_Some. exists x. split; [done | by apply getitem_Some].
Qed.

Lemma new_raises y m d e : PyDate.new y m d = Raise e → e = ValueError.
Proof. unfold PyDate.new. case_match; congruence. Qed.

Lemma strptime_raises s e : PyDate.strptime s = Raise e → e = ValueError.
Proof.
  unfold PyDate.strptime. intros H.
  repeat case_match; try congruence; by eapply new_raises.
Qed.

Lemma parse_date_ok s : parse_date s = Ok (date_of s).
Proof.
  unfold parse_date, date_of.
  destruct (PyDate.strptime (PyStr.strip s)) as [d|e] eqn:E; [done|].
  by rewrite (strptime_raises _ _ E).
Qed.

Lemma of_str_raises s e : PyFloat.of_str s = Raise e → e = ValueError.
Proof. unfold PyFloat.of_str. repeat case_match; congruence. Qed.

Lemma row4_inv (row : list string) :
  length row = 4%nat → ∃ a b c d, row = [a; b; c; d].
Proof.
  destruct row as [|a [|b [|c [|d [|]]]]]; simpl; try lia. eauto 6.
Qed.

Lemma create_index_key_ok row :
  length row = 4%nat → create_index_key row = Ok (key_of row).
Proof.
  intros (a & b & c & d & ->)%row4_inv.
  unfold create_index_key, key_of, amount_key, field. simpl.
  destruct (PyFloat.of_str c) as [x|e] eqn:E; simpl; [done|].
  by rewrite (of_str_raises _ _ E).
Qed.

Lemma getitem_row0 row :
  length row = 4%nat → getitem row 0 = Ok (field row 0).
Proof. intros (a & b & c & d & ->)%row4_inv. done. Qed.

Lemma normalize_row_length row : length (normalize_row row) = 4%nat.
Proof.
  unfold normalize_row. rewrite length_fmap, length_take, length_app, length_replicate. lia.
Qed.

End runtime.

(** * The state under assignments *)

Section assignments.

Lemma entries_assign s i f s' σ :
  entries s' (assign (s, i) f σ)
  = if decide (s = s') then alter f i (entries s σ) else entries s' σ.
Proof. destruct s, s', σ; done. Qed.

Lemma assign_assign r f g σ : assign r f (assign r g σ) = assign r (f ∘ g) σ.
Proof.
  destruct r as [[] i], σ; unfold assign; simpl; by rewrite list_alter_alter_eq.
Qed.

Lemma entries_mark s i s' σ :
  entries s' (mark (s, i) σ)
  = if decide (s = s') then alter found i (entries s σ) else entries s' σ.
Proof. apply entries_assign. Qed.

Lemma length_entries_mark r s σ :
  length (entries s (mark r σ)) = length (entries s σ).
Proof.
  destruct r as [s0 i]. rewrite entries_mark. case_decide; subst; [|done].
  by rewrite length_alter.
Qed.

Lemma rows_entries_mark r s σ :
  original_row <$> entries s (mark r σ) = original_row <$> entries s σ.
Proof.
  destruct r as [s0 i]. rewrite entries_mark. case_decide; subst; [|done].
  apply list_eq. intros j. rewrite !list_lookup_fmap.
  destruct (decide (i = j)) as [->|].
  - rewrite list_lookup_alter_eq. by destruct (entries s σ !! j).
  - by rewrite list_lookup_alter_ne.
Qed.

Lemma lookup_mark_eq s i σ :
  entries s (mark (s, i) σ) !! i = found <$> entries s σ !! i.
Proof. rewrite entries_mark. rewrite decide_True by done. apply list_lookup_alter_eq. Qed.

Lemma lookup_mark_ne s i s' j σ :
  (s, i) ≠ (s', j) → entries s' (mark (s, i) σ) !! j = entries s' σ !! j.
Proof.
  intros Hne. rewrite entries_mark. case_decide; subst; [|done].
  apply list_lookup_alter_ne. congruence.
Qed.

End assignments.

(** * The code against its functional description *)

Section functional.

Lemma scan_spec src sd t bucket σ :
  (∀ c, c ∈ bucket → (c.2 < length (entries t σ))%nat) →
  scan src sd t bucket σ
  = Ok (match List.find (acceptable sd (entries t σ)) bucket with
        | Some c => ("FOUND", mark (t, c.2) (mark src σ))
        | None => ("MISSING", σ)
        end).
Proof.
  induction bucket as [|[d j] bucket IH]; intros Hr; [done|].
  assert (j < length (entries t σ))%nat as Hj by (apply (Hr (d, j)); left).
  destruct (getitem_lt _ _ Hj) as (e & He & Hg).
  simpl. rewrite Hg. simpl. unfold acceptable at 1. simpl. rewrite He.
  destruct (matched e); simpl.
  { apply IH. intros c Hc. apply Hr. by right. }
  destruct (Z.abs (PyDate.sub_days sd d) <=? 1); simpl.
  2:{ apply IH. intros c Hc. apply Hr. by right. }
  unfold assign_item.
  rewrite assign_assign.
  assert (∀ r f σ', length (entries t (assign r f σ')) = length (entries t σ')) as Hlen.
  { intros [s i] f σ'. rewrite entries_assign.
    case_decide; subst; [by rewrite length_alter | done]. }
  destruct (getitem_lt (entries t (assign src (set_matched true ∘ set_status "FOUND") σ)) j)
    as (e1 & _ & ->); [by rewrite Hlen|]. simpl.
  destruct (getitem_lt (entries t (assign (t, j) (set_status "FOUND")
              (assign src (set_matched true ∘ set_status "FOUND") σ))) j)
    as (e2 & _ & ->); [by rewrite !Hlen|]. simpl.
  by rewrite assign_assign.
Qed.

Lemma find_and_mark_spec s i tix t σ e :
  entries s σ !! i = Some e →
  length (original_row e) = 4%nat →
  in_range tix (length (entries t σ)) →
  find_and_mark (s, i) tix t σ
  = Ok (match choose tix (entries t σ) (original_row e) with
        | Some c => ("FOUND", mark (t, c.2) (mark (s, i) σ))
        | None => ("MISSING", σ)
        end).
Proof.
  intros He Hlen Hr. unfold find_and_mark, deref, choose, row_date. simpl.
  rewrite (getitem_Some _ _ _ He). simpl.
  rewrite getitem_row0 by done. simpl. rewrite parse_date_ok. simpl.
  destruct (date_of (field (original_row e) 0)) as [sd|]; [|done].
  rewrite create_index_key_ok by done. simpl.
  destruct (tix !! key_of (original_row e)) as [bucket|] eqn:Hb; [|done].
  apply scan_spec. intros c Hc. by eapply Hr.
Qed.

Lemma visit_spec s tix t i σ :
  (i < length (entries s σ))%nat →
  rows4 (entries s σ) →
  in_range tix (length (entries t σ)) →
  visit s tix t i σ = Ok (visited s tix t σ i).
Proof.
  intros Hi H4 Hr. destruct (getitem_lt _ _ Hi) as (e & He & Hg).
  unfold visit, visited, deref. simpl. rewrite Hg, He. simpl.
  destruct (matched e); simpl; [done|].
  erewrite find_and_mark_spec; [|done| |done].
  - simpl. by destruct (choose _ _ _).
  - eapply Forall_lookup_1 in H4; [|done]. done.
Qed.

Lemma length_visited s tix t σ i s' :
  length (entries s' (visited s tix t σ i)) = length (entries s' σ).
Proof.
  unfold visited. repeat case_match; try done. by rewrite !length_entries_mark.
Qed.

Lemma rows_visited s tix t σ i s' :
  original_row <$> entries s' (visited s tix t σ i) = original_row <$> entries s' σ.
Proof.
  unfold visited. repeat case_match; try done. by rewrite !rows_entries_mark.
Qed.

Lemma rows4_rows l l' :
  original_row <$> l = original_row <$> l' → rows4 l → rows4 l'.
Proof.
  unfold rows4. intros Heq H. apply Forall_lookup. intros i e' He'.
  assert (original_row <$> l !! i = Some (original_row e')) as Hi.
  { by rewrite <- list_lookup_fmap, Heq, list_lookup_fmap, He'. }
  destruct (l !! i) as [e|] eqn:E; simplify_eq/=.
  eapply Forall_lookup_1 in H; [|done]. congruence.
Qed.

Lemma passage_spec s tix t positions σ :
  (∀ i, i ∈ positions → (i < length (entries s σ))%nat) →
  rows4 (entries s σ) →
  in_range tix (length (entries t σ)) →
  passage s tix t positions σ = Ok (foldl (visited s tix t) σ positions).
Proof.
  revert σ. induction positions as [|i positions IH]; intros σ Hp H4 Hr; [done|].
  simpl. rewrite visit_spec; [|apply Hp; by left|done..]. simpl.
  apply IH.
  - intros j Hj. rewrite length_visited. apply Hp. by right.
  - eapply rows4_rows; [|done]. by rewrite rows_visited.
  - by rewrite length_visited.
Qed.

End functional.

(** * Sorting a bucket *)

Section sorting.

Lemma lt_spec (a b : date) :
  PyDate.lt a b = true ↔
  PyDate.year a < PyDate.year b
  ∨ (PyDate.year a = PyDate.year b
     ∧ (PyDate.month a < PyDate.month b
        ∨ (PyDate.month a = PyDate.month b ∧ PyDate.day a < PyDate.day b))).
Proof.
  unfold PyDate.lt.
  rewrite !orb_true_iff, !andb_true_iff, !orb_true_iff, !andb_true_iff,
    !Z.ltb_lt, !Z.eqb_eq. tauto.
Qed.

Lemma not_lt_spec (a b : date) :
  PyDate.lt a b = false ↔
  ¬ (PyDate.year a < PyDate.year b
     ∨ (PyDate.year a = PyDate.year b
        ∧ (PyDate.month a < PyDate.month b
           ∨ (PyDate.month a = PyDate.month b ∧ PyDate.day a < PyDate.day b)))).
Proof. rewrite <- lt_spec. by destruct (PyDate.lt a b). Qed.

Lemma lt_trans a b c :
  PyDate.lt a b = true → PyDate.lt b c = true → PyDate.lt a c = true.
Proof. rewrite !lt_spec. lia. Qed.

Lemma le_trans a b c :
  PyDate.lt b a = false → PyDate.lt c b = false → PyDate.lt c a = false.
Proof. rewrite !not_lt_spec. lia. Qed.

Lemma le_antisym a b :
  PyDate.lt a b = false → PyDate.lt b a = false → a = b.
Proof.
  rewrite !not_lt_spec. destruct a, b; simpl. intros. f_equal; lia.
Qed.

Lemma lt_irrefl a : PyDate.lt a a = false.
Proof. rewrite not_lt_spec. lia. Qed.

Lemma before_trans x y z : before x y → before y z → before x z.
Proof.
  unfold before. intros [H1|[H1 H1']] [H2|[H2 H2']].
  - left. by eapply lt_trans.
  - left. by rewrite <- H2.
  - left. by rewrite H1.
  - right. split; [congruence | lia].
Qed.

Lemma elem_of_insert_by_date c x l : c ∈ insert_by_date x l ↔ c = x ∨ c ∈ l.
Proof.
  induction l as [|y l IH]; simpl.
  - rewrite list_elem_of_singleton, elem_of_nil. tauto.
  - destruct (PyDate.lt y.1 x.1); rewrite !elem_of_cons; [rewrite IH|]; tauto.
Qed.

Lemma elem_of_sort_by_date c l : c ∈ sort_by_date l ↔ c ∈ l.
Proof.
  induction l as [|x l IH]; simpl; [done|].
  rewrite elem_of_insert_by_date, elem_of_cons, IH. tauto.
Qed.

Lemma insert_by_date_before x l :
  StronglySorted before l →
  Forall (λ y, (x.2 < y.2)%nat) l →
  StronglySorted before (insert_by_date x l).
Proof.
  induction 1 as [|y l Hs IH Hy]; intros Hx; simpl.
  { repeat constructor. }
  apply Forall_cons in Hx as [Hxy Hx].
  destruct (PyDate.lt y.1 x.1) eqn:E.
  - constructor; [by apply IH|].
    apply Forall_forall. intros c [->|Hc]%elem_of_insert_by_date.
    + by left.
    + rewrite Forall_forall in Hy. by apply Hy.
  - assert (before x y) as Hb.
    { destruct (PyDate.lt x.1 y.1) eqn:E'; [by left|].
      right. split; [by apply le_antisym | done]. }
    constructor; [by constructor|].
    constructor; [done|].
    eapply Forall_impl; [exact Hy|]. intros z Hz. by eapply before_trans.
Qed.

Lemma sort_by_date_before l :
  StronglySorted (λ x y, (x.2 < y.2)%nat) l → StronglySorted before (sort_by_date l).
Proof.
  induction 1 as [|x l Hs IH Hx]; simpl; [constructor|].
  apply insert_by_date_before; [done|].
  apply Forall_forall. intros c Hc. apply (proj1 (elem_of_sort_by_date _ _)) in Hc.
  rewrite Forall_forall in Hx. by apply Hx.
Qed.

Lemma sort_by_date_ascending l : ascending (sort_by_date l).
Proof.
  unfold ascending. induction l as [|x l IH]; simpl; [constructor|].
  revert IH. generalize (sort_by_date l). clear l.
  induction 1 as [|y l Hs IH Hy]; simpl; [repeat constructor|].
  destruct (PyDate.lt y.1 x.1) eqn:E.
  - constructor; [done|].
    apply Forall_forall. intros c [->|Hc]%elem_of_insert_by_date.
    + apply not_lt_spec. apply lt_spec in E. lia.
    + rewrite Forall_forall in Hy. by apply Hy.
  - constructor; [by constructor|]. constructor; [done|].
    eapply Forall_impl; [exact Hy|]. intros z Hz. simpl in *. by eapply le_trans.
Qed.

End sorting.

(** * The indices *)

Section indexing.

Implicit Types (keep : entry → bool) (k : string * string * string).

Lemma elem_of_candidates_offset keep k idx l d i :
  (d, i) ∈ candidates keep k idx l ↔
  ∃ j e, i = (idx + j)%nat ∧ l !! j = Some e
         ∧ row_date (original_row e) = Some d
         ∧ key_of (original_row e) = k ∧ keep e = true.
Proof.
  revert idx. induction l as [|e l IH]; intros idx; simpl.
  { rewrite elem_of_nil. naive_solver. }
  assert ((d, i) ∈ candidates keep k (S idx) l ↔
          ∃ j e', i = (idx + S j)%nat ∧ (e :: l) !! S j = Some e'
                  ∧ row_date (original_row e') = Some d
                  ∧ key_of (original_row e') = k ∧ keep e' = true) as IH'.
  { rewrite IH. simpl. split; intros (j & e' & -> & ?); exists j, e'; (split; [lia|done]). }
  assert (((d, i) = (d, i) ∧ i = idx ∧ row_date (original_row e) = Some d
            ∧ key_of (original_row e) = k ∧ keep e = true) ↔
          ∃ e', i = (idx + 0)%nat ∧ (e :: l) !! 0%nat = Some e'
                  ∧ row_date (original_row e') = Some d
                  ∧ key_of (original_row e') = k ∧ keep e' = true) as Hhead.
  { simpl. split.
    - intros (_ & -> & ?). exists e. split; [lia|done].
    - intros (e' & -> & [= <-] & ?). split; [done|]. split; [lia|done]. }
  assert ((∃ j e', i = (idx + j)%nat ∧ (e :: l) !! j = Some e'
                   ∧ row_date (original_row e') = Some d
                   ∧ key_of (original_row e') = k ∧ keep e' = true) ↔
          ((d, i) = (d, i) ∧ i = idx ∧ row_date (original_row e) = Some d
            ∧ key_of (original_row e) = k ∧ keep e = true)
          ∨ (d, i) ∈ candidates keep k (S idx) l) as ->.
  { rewrite Hhead, IH'. split.
    - intros ([|j] & e' & H); [left | right]; eauto.
    - intros [(e' & H)|(j & e' & H)]; eauto. }
  destruct (row_date (original_row e)) as [d0|] eqn:Ed.
  - destruct (keep e) eqn:Ek; simpl.
    + case_bool_decide as Hk.
      * rewrite elem_of_cons. split.
        -- intros [[= -> ->]|?]; [left|right]; done.
        -- intros [(_ & -> & [= ->] & _)|?]; [left|right]; done.
      * split; [by right|]. intros [(_ & _ & _ & ? & _)|?]; done.
    + split; [by right|]. intros [(_ & _ & _ & _ & ?)|?]; done.
  - split; [by right|]. intros [(_ & _ & ? & _)|?]; done.
Qed.

Lemma elem_of_candidates keep k l d i :
  (d, i) ∈ candidates keep k 0 l ↔
  ∃ e, l !! i = Some e ∧ row_date (original_row e) = Some d
       ∧ key_of (original_row e) = k ∧ keep e = true.
Proof.
  rewrite elem_of_candidates_offset. split.
  - intros (j & e & -> & ?). by exists e.
  - intros (e & ?). by exists i, e.
Qed.

Lemma candidates_lower keep k idx l :
  Forall (λ c, (idx ≤ c.2)%nat) (candidates keep k idx l).
Proof.
  apply Forall_forall. intros [d i] Hc. apply elem_of_candidates_offset in Hc.
  destruct Hc as (j & e & -> & _). simpl. lia.
Qed.

Lemma candidates_increasing keep k idx l :
  StronglySorted (λ x y, (x.2 < y.2)%nat) (candidates keep k idx l).
Proof.
  revert idx. induction l as [|e l IH]; intros idx; simpl; [constructor|].
  repeat case_match; try apply IH.
  constructor; [apply IH|].
  eapply Forall_impl; [apply candidates_lower|]. simpl. intros; lia.
Qed.

Lemma lookup_extend_insert (ix : index) k k' x c :
  extend (<[k' := (default [] (ix !! k') ++ [x])%list]> ix !! k) c
  = extend (ix !! k) (if bool_decide (k' = k) then x :: c else c).
Proof.
  case_bool_decide as Hk.
  - subst. rewrite lookup_insert_eq. unfold extend. simpl.
    destruct c; simpl; [done|]. by rewrite <- app_assoc.
  - by rewrite lookup_insert_ne.
Qed.

Lemma index_entries_spec (idx : nat) (l : list entry) (ix : index) :
  rows4 l →
  ∃ ix' : index, index_entries idx l ix = Ok ix'
    ∧ ∀ k, ix' !! k = extend (ix !! k) (candidates (λ _, true) k idx l).
Proof.
  revert idx ix. induction l as [|e l IH]; intros idx ix H4; simpl.
  { by exists ix. }
  apply Forall_cons in H4 as [He H4].
  rewrite getitem_row0 by done. simpl. rewrite parse_date_ok. simpl.
  unfold row_date.
  destruct (date_of (field (original_row e) 0)) as [d|]; [|by apply IH].
  rewrite create_index_key_ok by done. simpl.
  destruct (IH (S idx) (<[key_of (original_row e) :=
              (default [] (ix !! key_of (original_row e)) ++ [(d, idx)])%list]> ix) H4)
    as (ix' & -> & Hix').
  exists ix'. split; [done|]. intros k. rewrite Hix'.
  by rewrite lookup_extend_insert.
Qed.

Lemma build_index_spec (l : list entry) :
  rows4 l →
  ∃ ix : index, build_index l = Ok ix
    ∧ ∀ k, ix !! k = sort_by_date <$> extend None (candidates (λ _, true) k 0 l).
Proof.
  intros H4. destruct (index_entries_spec 0 l ∅ H4) as (ix & Hix & Hl).
  exists (sort_by_date <$> ix). unfold build_index. rewrite Hix. split; [done|].
  intros k. by rewrite lookup_fmap, Hl, lookup_empty.
Qed.

End indexing.

(** * Runs *)

Section runs.

Variables ta tb : list raw_row.

Lemma rows4_preprocess t : rows4 (preprocess t).
Proof.
  apply Forall_forall. intros e (row & -> & _)%list_elem_of_fmap. simpl.
  apply normalize_row_length.
Qed.

Lemma build_index_of (l : list entry) : rows4 l → build_index l = Ok (index_of l).
Proof.
  intros H4. unfold index_of. by destruct (build_index_spec l H4) as (ix & -> & _).
Qed.

Lemma lookup_index_of (l : list entry) k :
  rows4 l →
  index_of l !! k = sort_by_date <$> extend None (candidates (λ _, true) k 0 l).
Proof.
  intros H4. unfold index_of. by destruct (build_index_spec l H4) as (ix & -> & ->).
Qed.

Lemma extend_None c : extend None c = match c with [] => None | _ => Some c end.
Proof. by destruct c. Qed.

(** Membership in the buckets, by the rows. *)
Lemma elem_of_index_of (l : list entry) k d i :
  rows4 l →
  (∃ bucket, index_of l !! k = Some bucket ∧ (d, i) ∈ bucket) ↔
  ∃ row, (original_row <$> l) !! i = Some row ∧ row_date row = Some d ∧ key_of row = k.
Proof.
  intros H4. rewrite lookup_index_of, extend_None by done.
  assert ((d, i) ∈ candidates (λ _, true) k 0 l ↔
          ∃ row, (original_row <$> l) !! i = Some row
                 ∧ row_date row = Some d ∧ key_of row = k) as <-.
  { rewrite elem_of_candidates. split.
    - intros (e & He & ? & ? & _). exists (original_row e).
      by rewrite list_lookup_fmap, He.
    - intros (row & Hr & ? & ?). rewrite list_lookup_fmap in Hr.
      destruct (l !! i) as [e|]; simplify_eq/=. by exists e. }
  destruct (candidates (λ _ : entry, true) k 0 l) as [|c cs] eqn:E; simpl.
  - rewrite elem_of_nil. naive_solver.
  - rewrite <- (elem_of_sort_by_date _ (c :: cs)). naive_solver.
Qed.

Lemma in_range_index_of (l : list entry) n :
  rows4 l → length l = n → in_range (index_of l) n.
Proof.
  intros H4 <- k bucket [d i] Hb Hc. simpl.
  destruct (proj1 (elem_of_index_of l k d i H4)) as (row & Hr & _); [eauto|].
  apply lookup_lt_Some in Hr. by rewrite length_fmap in Hr.
Qed.

Lemma length_preprocess t : length (preprocess t) = length t.
Proof. apply length_fmap. Qed.

Lemma length_step σ t s : length (entries s (step ta tb σ t)) = length (entries s σ).
Proof. unfold step. case_decide; apply length_visited. Qed.

Lemma rows_step σ t s :
  original_row <$> entries s (step ta tb σ t) = original_row <$> entries s σ.
Proof. unfold step. case_decide; apply rows_visited. Qed.

Lemma states_S t : states ta tb (S t) = step ta tb (states ta tb t) t.
Proof. unfold states. by rewrite seq_S, foldl_app. Qed.

Lemma rows_states t s :
  original_row <$> entries s (states ta tb t) = original_row <$> entries s (initial ta tb).
Proof.
  induction t as [|t IH]; [done|]. by rewrite states_S, rows_step.
Qed.

Lemma length_states t s :
  length (entries s (states ta tb t)) = length (entries s (initial ta tb)).
Proof.
  induction t as [|t IH]; [done|]. by rewrite states_S, length_step.
Qed.

Lemma rows4_states t s : rows4 (entries s (states ta tb t)).
Proof.
  eapply rows4_rows; [symmetry; apply rows_states|].
  destruct s; apply rows4_preprocess.
Qed.

Lemma length_initial s :
  length (entries s (initial ta tb)) = match s with A => length ta | B => length tb end.
Proof. destruct s; apply length_preprocess. Qed.

(** The two passages, as folds of [step]. *)
Lemma foldl_step_first σ n :
  (n ≤ length ta)%nat →
  foldl (step ta tb) σ (seq 0 n)
  = foldl (visited A (index_of (preprocess tb)) B) σ (seq 0 n).
Proof.
  induction n as [|n IH] in |- *; [done|]. intros Hn.
  rewrite seq_S, !foldl_app, IH by lia. simpl. unfold step. by rewrite decide_True by lia.
Qed.

Lemma foldl_step_second σ m :
  foldl (step ta tb) σ (seq (length ta) m)
  = foldl (visited B (index_of (preprocess ta)) A) σ (seq 0 m).
Proof.
  induction m as [|m IH]; [done|].
  rewrite !seq_S, !foldl_app, IH. simpl. unfold step.
  rewrite decide_False by lia. do 2 f_equal. lia.
Qed.

Lemma run_states n m :
  (n ≤ length ta)%nat → (m ≤ length tb)%nat → (m = 0%nat ∨ n = length ta) →
  run ta tb n m = Ok (states ta tb (n + m)).
Proof.
  intros Hn Hm Hnm. unfold run. simpl.
  rewrite !build_index_of by apply rows4_preprocess. simpl.
  rewrite passage_spec; simpl.
  2:{ intros i Hi%elem_of_seq. rewrite length_preprocess. lia. }
  2:{ apply rows4_preprocess. }
  2:{ apply in_range_index_of; [apply rows4_preprocess|done]. }
  rewrite <- foldl_step_first by done. fold (initial ta tb). fold (states ta tb n).
  rewrite passage_spec.
  2:{ intros i Hi%elem_of_seq. rewrite (length_states n B), (length_initial B). lia. }
  2:{ apply (rows4_states n B). }
  2:{ rewrite (length_states n A), (length_initial A).
      apply in_range_index_of; [apply rows4_preprocess|apply length_preprocess]. }
  f_equal. unfold states at 2. rewrite seq_app, foldl_app. fold (states ta tb n).
  destruct Hnm as [->| ->]; [done|]. simpl. by rewrite foldl_step_second.
Qed.

Lemma point_states t :
  (t ≤ length ta + length tb)%nat → point ta tb t = Ok (states ta tb t).
Proof.
  intros Ht. unfold point. rewrite run_states; [f_equal; f_equal; lia|lia..].
Qed.

Lemma reconcile_accounts_states :
  reconcile_accounts ta tb
  = Ok (result_rows (processed_a (states ta tb (length ta + length tb))),
        result_rows (processed_b (states ta tb (length ta + length tb)))).
Proof.
  pose proof (run_states (length ta) (length tb)
                ltac:(lia) ltac:(lia) ltac:(by right)) as Hrun.
  unfold run in Hrun. unfold reconcile_accounts. simpl in *.
  rewrite !build_index_of in * by apply rows4_preprocess. simpl in *.
  rewrite length_preprocess.
  destruct (passage A _ B _ _) as [σ|] eqn:E; simpl in *.
  2:{ done. }
  assert (length (processed_b σ) = length tb) as ->.
  { rewrite passage_spec in E; simpl.
    2:{ intros i Hi%elem_of_seq. rewrite length_preprocess. lia. }
    2:{ apply rows4_preprocess. }
    2:{ apply in_range_index_of; [apply rows4_preprocess|done]. }
    injection E as <-. rewrite <- foldl_step_first by done.
    fold (initial ta tb). fold (states ta tb (length ta)).
    by rewrite (length_states _ B), (length_initial B). }
  by rewrite Hrun.
Qed.

End runs.

(** * What a visit does *)

Section visits.

Lemma sub_days_sym a b : Z.abs (PyDate.sub_days a b) = Z.abs (PyDate.sub_days b a).
Proof. unfold PyDate.sub_days. lia. Qed.

Lemma compatible_sym ra rb : compatible ra rb → compatible rb ra.
Proof.
  intros (Hk & da & db & Ha & Hb & Hd). split; [done|].
  exists db, da. by rewrite sub_days_sym.
Qed.

Lemma indexes_elem tix targets k d j :
  indexes tix targets →
  (∃ bucket, tix !! k = Some bucket ∧ (d, j) ∈ bucket) ↔
  ∃ et, targets !! j = Some et ∧ row_date (original_row et) = Some d
        ∧ key_of (original_row et) = k.
Proof.
  intros (l0 & H4 & -> & Hrows). rewrite elem_of_index_of, Hrows by done.
  split.
  - intros (row & Hr & ? & ?). rewrite list_lookup_fmap in Hr.
    destruct (targets !! j) as [et|]; simplify_eq/=. by exists et.
  - intros (et & He & ? & ?). exists (original_row et).
    by rewrite list_lookup_fmap, He.
Qed.

Lemma indexes_sound tix targets : indexes tix targets → index_sound tix targets.
Proof.
  intros Hix k bucket d j Hb Hc. apply (indexes_elem tix targets k d j Hix). eauto.
Qed.

Lemma in_range_sound (tix : index) targets :
  index_sound tix targets → in_range tix (length targets).
Proof.
  intros Hs k bucket [d j] Hb Hc. destruct (Hs k bucket d j Hb Hc) as (et & Het & _).
  simpl. by eapply lookup_lt_Some.
Qed.

Lemma choose_sound (tix : index) targets row c :
  index_sound tix targets →
  choose tix targets row = Some c →
  ∃ et, targets !! c.2 = Some et ∧ matched et = false
        ∧ compatible row (original_row et).
Proof.
  intros Hs. unfold choose.
  destruct (row_date row) as [sd|] eqn:Hsd; [|done].
  destruct (tix !! key_of row) as [bucket|] eqn:Hb; [|done].
  intros [Hc Hacc]%find_some. apply list_elem_of_In in Hc. destruct c as [d j].
  destruct (Hs _ _ d j Hb Hc) as (et & Het & Hd & Hk).
  unfold acceptable in Hacc. simpl in *. rewrite Het in Hacc.
  apply andb_true_iff in Hacc as [Hm Hdiff].
  exists et. split; [done|]. split; [by destruct (matched et)|].
  split; [done|]. exists sd, d. repeat split; [done..|]. by apply Z.leb_le.
Qed.

Lemma choose_None tix targets row j et :
  indexes tix targets →
  choose tix targets row = None →
  targets !! j = Some et →
  compatible row (original_row et) →
  matched et = true.
Proof.
  intros Hix Hch Het (Hk & sd & d & Hsd & Hd & Hdiff). unfold choose in Hch.
  rewrite Hsd in Hch.
  destruct (proj2 (indexes_elem tix targets (key_of row) d j Hix))
    as (bucket & Hb & Hc); [by exists et|].
  rewrite Hb in Hch. apply list_elem_of_In in Hc.
  eapply find_none in Hch; [|done]. unfold acceptable in Hch. simpl in Hch.
  rewrite Het in Hch. apply andb_false_iff in Hch as [Hm|Hf].
  - by destruct (matched et).
  - apply Z.leb_gt in Hf. lia.
Qed.

Lemma flag_alter_found l i j :
  flag (alter found i l) j
  = if decide (i = j) then (λ _, true) <$> flag l j else flag l j.
Proof.
  unfold flag. rewrite list_lookup_alter. case_decide; subst; [|done].
  by destruct (l !! j).
Qed.

Lemma newly_matched_same l : newly_matched l l = [].
Proof.
  unfold newly_matched. induction (seq 0 (length l)) as [|i rest IH]; [done|].
  rewrite filter_cons, IH. case_decide as H; [|done]. destruct H; congruence.
Qed.

Lemma singleton_list {X} (l : list X) x :
  NoDup l → (∀ y, y ∈ l ↔ y = x) → l = [x].
Proof.
  intros Hnd Hl. destruct l as [|y l].
  { specialize (Hl x). rewrite elem_of_nil in Hl. by destruct Hl as [_ []]. }
  assert (y = x) as -> by (apply Hl; by left).
  apply NoDup_cons in Hnd as [Hx Hnd]. destruct l as [|z l]; [done|].
  assert (z = x) as -> by (apply Hl; right; by left).
  destruct Hx. by left.
Qed.

Lemma newly_matched_alter l i e :
  l !! i = Some e → matched e = false → newly_matched l (alter found i l) = [i].
Proof.
  intros He Hm. unfold newly_matched. apply singleton_list.
  { apply NoDup_filter, NoDup_seq. }
  intros j. rewrite list_elem_of_filter, elem_of_seq, flag_alter_found.
  split.
  - intros [[Hf Hf'] _]. case_decide; [done|]. rewrite Hf in Hf'. done.
  - intros ->. rewrite decide_True by done. unfold flag. rewrite He. simpl. rewrite Hm.
    split; [done|]. apply lookup_lt_Some in He. lia.
Qed.

Lemma mark_A_B i j σ :
  mark (B, j) (mark (A, i) σ)
  = State (alter found i (processed_a σ)) (alter found j (processed_b σ)).
Proof. by destruct σ. Qed.

Lemma new_pairs_same σ : new_pairs σ σ = [].
Proof. unfold new_pairs. rewrite !newly_matched_same. reflexivity. Qed.

Lemma new_pairs_mark σ i j ea eb :
  processed_a σ !! i = Some ea → matched ea = false →
  processed_b σ !! j = Some eb → matched eb = false →
  new_pairs σ (mark (B, j) (mark (A, i) σ)) = [(i, j)].
Proof.
  intros. unfold new_pairs. rewrite mark_A_B. simpl.
  erewrite !newly_matched_alter by done. reflexivity.
Qed.

Lemma found_count_alter l i e :
  l !! i = Some e → status e ≠ "FOUND" →
  found_count (alter found i l) = S (found_count l).
Proof.
  unfold found_count. revert i. induction l as [|x l IH]; intros [|i] He Hs; simplify_eq/=.
  - rewrite !filter_cons. repeat case_decide; simpl in *; done.
  - rewrite !filter_cons. case_decide; simpl; by erewrite IH.
Qed.

Lemma Forall_consistent_alter l i :
  Forall consistent l → Forall consistent (alter found i l).
Proof.
  intros H. apply Forall_lookup. intros j e. rewrite list_lookup_alter.
  case_decide; subst.
  - destruct (l !! j); intros [= <-]. by left.
  - intros He. by eapply Forall_lookup_1 in H.
Qed.

End visits.

(** * The invariant of the first passage *)

Section matching.

Variables ta tb : list raw_row.

Lemma rows_preprocess t : original_row <$> preprocess t = rows t.
Proof. unfold preprocess, rows. rewrite <- list_fmap_compose. done. Qed.

Lemma rows_a n : original_row <$> processed_a (states ta tb n) = rows ta.
Proof. etrans; [apply (rows_states ta tb n A)|apply rows_preprocess]. Qed.

Lemma rows_b n : original_row <$> processed_b (states ta tb n) = rows tb.
Proof. etrans; [apply (rows_states ta tb n B)|apply rows_preprocess]. Qed.

Lemma lookup_row_a n i e :
  processed_a (states ta tb n) !! i = Some e → rows ta !! i = Some (original_row e).
Proof. intros He. by rewrite <- (rows_a n), list_lookup_fmap, He. Qed.

Lemma lookup_row_b n j e :
  processed_b (states ta tb n) !! j = Some e → rows tb !! j = Some (original_row e).
Proof. intros He. by rewrite <- (rows_b n), list_lookup_fmap, He. Qed.

Lemma row_lookup_b n j r :
  rows tb !! j = Some r →
  ∃ e, processed_b (states ta tb n) !! j = Some e ∧ original_row e = r.
Proof.
  rewrite <- (rows_b n), list_lookup_fmap. intros H.
  destruct (processed_b (states ta tb n) !! j) as [e|]; simplify_eq/=. by exists e.
Qed.

Lemma indexes_b n :
  indexes (index_of (preprocess tb)) (processed_b (states ta tb n)).
Proof.
  exists (preprocess tb). split; [apply rows4_preprocess|]. split; [done|].
  by rewrite rows_b, rows_preprocess.
Qed.

Lemma indexes_a n :
  indexes (index_of (preprocess ta)) (processed_a (states ta tb n)).
Proof.
  exists (preprocess ta). split; [apply rows4_preprocess|]. split; [done|].
  by rewrite rows_a, rows_preprocess.
Qed.

Lemma pairs_upto_S n :
  (S n ≤ length ta + length tb)%nat →
  pairs_upto ta tb (S n)
  = pairs_upto ta tb n ++ new_pairs (states ta tb n) (states ta tb (S n)).
Proof.
  intros Hn. unfold pairs_upto. rewrite seq_S, bind_app. f_equal. simpl.
  rewrite !point_states by lia. apply app_nil_r.
Qed.

Lemma states_first n :
  (n < length ta)%nat →
  states ta tb (S n) = visited A (index_of (preprocess tb)) B (states ta tb n) n.
Proof. intros Hn. rewrite states_S. unfold step. by rewrite decide_True. Qed.

Lemma length_a n : length (processed_a (states ta tb n)) = length ta.
Proof. etrans; [apply (length_states ta tb n A)|apply (length_initial ta tb A)]. Qed.

Lemma length_b n : length (processed_b (states ta tb n)) = length tb.
Proof. etrans; [apply (length_states ta tb n B)|apply (length_initial ta tb B)]. Qed.

(** One visit of the first passage: nothing changes and every row of B
    the source row could be paired with is matched, or the source and
    one such row are marked. *)
Lemma first_visit n :
  (n < length ta)%nat → invariant ta tb n →
  ∃ ea, processed_a (states ta tb n) !! n = Some ea ∧ matched ea = false ∧
  ((states ta tb (S n) = states ta tb n
    ∧ ∀ j eb, processed_b (states ta tb n) !! j = Some eb →
              compatible (original_row ea) (original_row eb) → matched eb = true)
   ∨ ∃ j eb, processed_b (states ta tb n) !! j = Some eb ∧ matched eb = false
             ∧ compatible (original_row ea) (original_row eb)
             ∧ states ta tb (S n) = mark (B, j) (mark (A, n) (states ta tb n))).
Proof.
  intros Hn Hinv.
  destruct (lookup_lt_is_Some_2 (processed_a (states ta tb n)) n) as [ea Hea].
  { by rewrite length_a. }
  assert (matched ea = false) as Hm.
  { pose proof (inv_unvisited _ _ _ Hinv n ltac:(lia)) as Hu. unfold flag in Hu.
    rewrite Hea in Hu. simpl in Hu. destruct (matched ea); congruence. }
  exists ea. split; [done|]. split; [done|].
  rewrite states_first by done. unfold visited. simpl. rewrite Hea, Hm.
  destruct (choose _ _ _) as [c|] eqn:Hc.
  - right. destruct (choose_sound _ _ _ _ (indexes_sound _ _ (indexes_b n)) Hc)
      as (eb & Heb & Hmb & Hcomp).
    by exists c.2, eb.
  - left. split; [done|]. intros j eb Heb Hcomp.
    by eapply choose_None; [apply (indexes_b n)|..].
Qed.

Lemma invariant_0 : invariant ta tb 0.
Proof.
  assert (∀ t, Forall consistent (preprocess t)) as Hc.
  { intros t. apply Forall_forall. intros e (row & -> & _)%list_elem_of_fmap. by right. }
  assert (∀ t i, flag (preprocess t) i ≠ Some true) as Hf.
  { intros t i. unfold flag, preprocess. rewrite list_lookup_fmap.
    by destruct (t !! i). }
  assert (∀ t, found_count (preprocess t) = 0%nat) as H0.
  { intros t. unfold found_count, preprocess. induction t as [|r t IH]; [done|].
    rewrite fmap_cons, filter_cons. by case_decide. }
  split; simpl.
  - apply Hc.
  - apply Hc.
  - apply NoDup_nil_2.
  - apply NoDup_nil_2.
  - intros i. rewrite elem_of_nil. split; [done|]. intros H. by apply Hf in H.
  - intros j. rewrite elem_of_nil. split; [done|]. intros H. by apply Hf in H.
  - intros i j Hij. by apply elem_of_nil in Hij.
  - intros i _. apply Hf.
  - intros. lia.
  - by rewrite !H0.
Qed.

Lemma invariant_S n :
  (n < length ta)%nat → invariant ta tb n → invariant ta tb (S n).
Proof.
  intros Hn Hinv.
  destruct (first_visit n Hn Hinv) as (ea & Hea & Hma & [[Hst Hex]|(j & eb & Heb & Hmb & Hcomp & Hst)]).
  - (* nothing changes *)
    assert (pairs_upto ta tb (S n) = pairs_upto ta tb n) as HP.
    { rewrite pairs_upto_S by lia. rewrite Hst, new_pairs_same. apply app_nil_r. }
    destruct Hinv. split; rewrite ?HP, ?Hst; try done.
    + intros i Hi. apply inv_unvisited0. lia.
    + intros i j ra rb Hi Hra Hrb Hcomp.
      destruct (decide (i = n)) as [->|]; [|apply (inv_maximal0 i j ra rb); [lia|done..]].
      right. destruct (row_lookup_b n j rb Hrb) as (eb & Heb & <-).
      unfold flag. rewrite Heb. simpl. f_equal. apply (Hex j eb Heb).
      apply lookup_row_a in Hea. by simplify_eq.
  - (* the source and a target are marked *)
    assert (pairs_upto ta tb (S n) = pairs_upto ta tb n ++ [(n, j)]) as HP.
    { rewrite pairs_upto_S by lia. rewrite Hst. by erewrite new_pairs_mark. }
    assert (processed_a (states ta tb (S n)) = alter found n (processed_a (states ta tb n))) as HA.
    { by rewrite Hst, mark_A_B. }
    assert (processed_b (states ta tb (S n)) = alter found j (processed_b (states ta tb n))) as HB.
    { by rewrite Hst, mark_A_B. }
    assert (flag (processed_a (states ta tb n)) n = Some false) as Hfa.
    { unfold flag. by rewrite Hea; simpl; rewrite Hma. }
    assert (flag (processed_b (states ta tb n)) j = Some false) as Hfb.
    { unfold flag. by rewrite Heb; simpl; rewrite Hmb. }
    destruct Hinv. split; rewrite ?HP, ?HA, ?HB, ?fmap_app; simpl.
    + by apply Forall_consistent_alter.
    + by apply Forall_consistent_alter.
    + apply NoDup_app. split; [done|]. split; [|apply NoDup_singleton].
      intros i Hi ->%list_elem_of_singleton. apply inv_matched_a0 in Hi. congruence.
    + apply NoDup_app. split; [done|]. split; [|apply NoDup_singleton].
      intros i Hi ->%list_elem_of_singleton. apply inv_matched_b0 in Hi. congruence.
    + intros i. rewrite elem_of_app, list_elem_of_singleton, flag_alter_found, inv_matched_a0.
      case_decide; subst; [rewrite Hfa; simpl; naive_solver | naive_solver].
    + intros i. rewrite elem_of_app, list_elem_of_singleton, flag_alter_found, inv_matched_b0.
      case_decide; subst; [rewrite Hfb; simpl; naive_solver | naive_solver].
    + intros i j' [Hi|Hi%list_elem_of_singleton]%elem_of_app; [by apply inv_pairs0|].
      simplify_eq. exists (original_row ea), (original_row eb).
      split; [by eapply lookup_row_a|]. split; [by eapply lookup_row_b|done].
    + intros i Hi. rewrite flag_alter_found. rewrite decide_False by lia.
      apply inv_unvisited0. lia.
    + intros i j' ra rb Hi Hra Hrb Hc. rewrite !flag_alter_found.
      destruct (decide (n = i)) as [<-|].
      { left. by rewrite Hfa. }
      destruct (inv_maximal0 i j' ra rb) as [H|H]; [lia|done..| |].
      * by left.
      * right. case_decide; [by rewrite H|done].
    + rewrite length_app. simpl. destruct inv_count0 as [Hca Hcb].
      erewrite !found_count_alter; [lia|done| |done|].
      * eapply Forall_lookup_1 in inv_consistent_b0; [|done].
        destruct inv_consistent_b0 as [[? _]|[_ ->]]; congruence.
      * eapply Forall_lookup_1 in inv_consistent_a0; [|done].
        destruct inv_consistent_a0 as [[? _]|[_ ->]]; congruence.
Qed.

Lemma invariant_first n : (n ≤ length ta)%nat → invariant ta tb n.
Proof.
  induction n as [|n IH]; intros Hn; [apply invariant_0|].
  apply invariant_S; [lia|]. apply IH. lia.
Qed.

End matching.

(** * The second passage *)

Section second_passage.

Variables ta tb : list raw_row.

(** After the first passage no unmatched entry of B has an unmatched
    partner left in A: with any sound index over A, a visit of the second
    passage changes nothing. *)
Lemma second_visit_sound (tix : index) m :
  index_sound tix (processed_a (states ta tb (length ta))) →
  visited B tix A (states ta tb (length ta)) m = states ta tb (length ta).
Proof.
  intros Hs. unfold visited. simpl.
  destruct (processed_b (states ta tb (length ta)) !! m) as [eb|] eqn:Heb; [|done].
  destruct (matched eb) eqn:Hmb; [done|].
  destruct (choose _ _ _) as [c|] eqn:Hc; [|done]. exfalso.
  destruct (choose_sound _ _ _ _ Hs Hc) as (ea & Hea & Hma & Hcomp).
  pose proof (invariant_first ta tb (length ta) ltac:(lia)) as Hinv.
  destruct (inv_maximal _ _ _ Hinv c.2 m (original_row ea) (original_row eb)) as [H|H].
  - apply lookup_lt_Some in Hea. by rewrite length_a in Hea.
  - by eapply lookup_row_a.
  - by eapply lookup_row_b.
  - by apply compatible_sym.
  - unfold flag in H. rewrite Hea in H. simpl in H. congruence.
  - unfold flag in H. rewrite Heb in H. simpl in H. congruence.
Qed.

Lemma second_passage_sound (tix : index) positions :
  index_sound tix (processed_a (states ta tb (length ta))) →
  foldl (visited B tix A) (states ta tb (length ta)) positions
  = states ta tb (length ta).
Proof.
  intros Hs. induction positions as [|m positions IH]; [done|].
  simpl. by rewrite second_visit_sound.
Qed.

Lemma second_visit m :
  visited B (index_of (preprocess ta)) A (states ta tb (length ta)) m
  = states ta tb (length ta).
Proof. apply second_visit_sound, indexes_sound, indexes_a. Qed.

Lemma states_second m : states ta tb (length ta + m) = states ta tb (length ta).
Proof.
  induction m as [|m IH]; [by rewrite Nat.add_0_r|].
  rewrite Nat.add_succ_r, states_S, IH. unfold step.
  rewrite decide_False by lia. apply second_visit.
Qed.

Lemma states_min t : states ta tb t = states ta tb (t `min` length ta).
Proof.
  destruct (decide (t ≤ length ta)%nat).
  - by rewrite Nat.min_l.
  - rewrite Nat.min_r by lia.
    replace t with (length ta + (t - length ta))%nat at 1 by lia. apply states_second.
Qed.

Lemma pairs_upto_second m :
  (m ≤ length tb)%nat →
  pairs_upto ta tb (length ta + m) = pairs_upto ta tb (length ta).
Proof.
  induction m as [|m IH]; intros Hm; [by rewrite Nat.add_0_r|].
  rewrite Nat.add_succ_r, pairs_upto_S, IH by lia.
  rewrite <- Nat.add_succ_r, !states_second, new_pairs_same. apply app_nil_r.
Qed.

(** The invariant at the end of the run. *)
Lemma invariant_final : invariant ta tb (length ta + length tb).
Proof.
  pose proof (invariant_first ta tb (length ta) ltac:(lia)) as [].
  split; rewrite ?states_second, ?pairs_upto_second by lia; try done.
  - intros i Hi. apply inv_unvisited0. lia.
  - intros i j ra rb Hi Hra Hrb Hc. apply (inv_maximal0 i j ra rb); [|done..].
    apply lookup_lt_Some in Hra. unfold rows in Hra. by rewrite length_fmap in Hra.
Qed.

End second_passage.

(** * The results *)

Section results.

Lemma rstrip_idemp p s : PyStr.rstrip p (PyStr.rstrip p s) = PyStr.rstrip p s.
Proof.
  induction s as [|c s IH]; [done|]. simpl.
  destruct (p c && PyStr.is_empty (PyStr.rstrip p s)) eqn:E; [done|].
  simpl. by rewrite IH, E.
Qed.

Lemma lstrip_head p s :
  match PyStr.lstrip p s with
  | EmptyString => True
  | String c _ => p c = false
  end.
Proof.
  induction s as [|c s IH]; [done|]. simpl.
  destruct (p c) eqn:E; [done|]. by rewrite E.
Qed.

Lemma strip_idemp s : PyStr.strip (PyStr.strip s) = PyStr.strip s.
Proof.
  unfold PyStr.strip. pose proof (lstrip_head PyStr.isspace s) as H.
  destruct (PyStr.lstrip PyStr.isspace s) as [|c u]; [done|]. simpl.
  rewrite H. simpl. rewrite H. simpl. by rewrite rstrip_idemp, H.
Qed.

Lemma normalize_row_lookup row j :
  (j < 4)%nat → normalize_row row !! j = Some (PyStr.strip (cell_text row j)).
Proof.
  intros Hj. unfold normalize_row, cell_text. fold (cells_of row).
  rewrite list_lookup_fmap, lookup_take_lt by done.
  destruct (decide (j < length (cells_of row))%nat) as [Hl|Hl].
  - rewrite lookup_app_l by done.
    destruct (lookup_lt_is_Some_2 _ _ Hl) as [c ->]. by destruct c.
  - rewrite lookup_app_r by lia. rewrite lookup_replicate_2 by lia.
    by rewrite lookup_ge_None_2 by lia.
Qed.

Lemma result_rows_lookup l i :
  result_rows l !! i = (λ e, original_row e ++ [status e]) <$> l !! i.
Proof. apply list_lookup_fmap. Qed.

Lemma status_field (row : list string) st :
  length row = 4%nat → (row ++ [st]) !! 4%nat = Some st.
Proof. intros (a & b & c & d & ->)%row4_inv. done. Qed.

Lemma consistent_found e : consistent e → status e = "FOUND" ↔ matched e = true.
Proof. intros [[-> ->]|[-> ->]]; done. Qed.

Lemma is_found_result l i :
  rows4 l → Forall consistent l →
  is_found (result_rows l) i ↔ flag l i = Some true.
Proof.
  intros H4 Hc. unfold is_found, flag. rewrite result_rows_lookup.
  destruct (l !! i) as [e|] eqn:He; simpl; [|naive_solver].
  eapply Forall_lookup_1 in H4; [|done]. eapply Forall_lookup_1 in Hc; [|done].
  split.
  - intros (row & [= <-] & Hs). rewrite status_field in Hs by done.
    f_equal. apply consistent_found; congruence.
  - intros [= Hm]. eexists. split; [done|]. rewrite status_field by done.
    f_equal. by apply consistent_found.
Qed.

Lemma found_rows_result l :
  rows4 l → length (found_rows (result_rows l)) = found_count l.
Proof.
  unfold found_rows, found_count, result_rows. induction 1 as [|e l He H4 IH]; [done|].
  rewrite fmap_cons, !filter_cons, status_field by done.
  repeat case_decide; simpl; try congruence.
Qed.

End results.

(** * Marks are kept *)

Section monotone.

Variables ta tb : list raw_row.

Lemma consistent_states t s : Forall consistent (entries s (states ta tb t)).
Proof.
  rewrite states_min.
  pose proof (invariant_first ta tb (t `min` length ta) ltac:(lia)) as [].
  by destruct s.
Qed.

Lemma step_keeps_matched n s i e :
  entries s (states ta tb n) !! i = Some e → matched e = true →
  entries s (states ta tb (S n)) !! i = Some e.
Proof.
  intros He Hm. destruct (decide (n < length ta)%nat) as [Hn|Hn].
  - destruct (first_visit ta tb n Hn (invariant_first ta tb n ltac:(lia)))
      as (ea & Hea & Hma & [[-> _]|(j & eb & Heb & Hmb & _ & ->)]); [done|].
    rewrite !lookup_mark_ne; [done|..].
    + intros [= <- <-]. simpl in He. congruence.
    + intros [= <- <-]. simpl in He. congruence.
  - rewrite states_min, Nat.min_r by lia. rewrite states_min, Nat.min_r in He by lia. done.
Qed.

Lemma later_keeps_matched t t' s i e :
  (t ≤ t')%nat →
  entries s (states ta tb t) !! i = Some e → matched e = true →
  entries s (states ta tb t') !! i = Some e.
Proof.
  induction 1 as [|t' Ht IH]; [done|]. intros He Hm.
  apply step_keeps_matched; [by apply IH | done].
Qed.

End monotone.

(** * Rows and their final status *)

Section final.

Variables ta tb : list raw_row.

Lemma parse_date_row_date row d :
  parse_date (date_field row) = Ok d ↔ row_date (normalize_row row) = d.
Proof. rewrite parse_date_ok. unfold row_date, date_field. naive_solver. Qed.

Lemma create_index_key_key_of row k :
  create_index_key (normalize_row row) = Ok k ↔ key_of (normalize_row row) = k.
Proof. rewrite create_index_key_ok by apply normalize_row_length. naive_solver. Qed.

Lemma rows_lookup (t : list raw_row) i row :
  t !! i = Some row → rows t !! i = Some (normalize_row row).
Proof. intros H. unfold rows. by rewrite list_lookup_fmap, H. Qed.

Lemma rows_lookup_inv (t : list raw_row) i r :
  rows t !! i = Some r → ∃ row, t !! i = Some row ∧ r = normalize_row row.
Proof.
  unfold rows. rewrite list_lookup_fmap. destruct (t !! i) as [row|]; [|done].
  intros [= <-]. by exists row.
Qed.

Lemma matched_pairs_compatible i j :
  (i, j) ∈ matched_pairs ta tb →
  ∃ rowa rowb, ta !! i = Some rowa ∧ tb !! j = Some rowb
               ∧ compatible (normalize_row rowa) (normalize_row rowb).
Proof.
  intros H. destruct (inv_pairs _ _ _ (invariant_final ta tb) i j H)
    as (ra & rb & (rowa & ? & ->)%rows_lookup_inv & (rowb & ? & ->)%rows_lookup_inv & ?).
  by exists rowa, rowb.
Qed.

Lemma is_found_a i :
  is_found (result_rows (processed_a (states ta tb (length ta + length tb)))) i
  ↔ ∃ j, (i, j) ∈ matched_pairs ta tb.
Proof.
  pose proof (invariant_final ta tb) as [].
  rewrite is_found_result, <- inv_matched_a0, list_elem_of_fmap;
    [|apply (rows4_states ta tb _ A)|done].
  split.
  - intros ([i' j] & -> & H). by exists j.
  - intros (j & H). by exists (i, j).
Qed.

Lemma is_found_b j :
  is_found (result_rows (processed_b (states ta tb (length ta + length tb)))) j
  ↔ ∃ i, (i, j) ∈ matched_pairs ta tb.
Proof.
  pose proof (invariant_final ta tb) as [].
  rewrite is_found_result, <- inv_matched_b0, list_elem_of_fmap;
    [|apply (rows4_states ta tb _ B)|done].
  split.
  - intros ([i j'] & -> & H). by exists i.
  - intros (i & H). by exists (i, j).
Qed.

Lemma found_or_missing (t : list raw_row) l i row :
  original_row <$> l = rows t → Forall consistent l → t !! i = Some row →
  (is_found (result_rows l) i ∧ result_rows l !! i = Some (normalize_row row ++ ["FOUND"]))
  ∨ (¬ is_found (result_rows l) i ∧ is_missing (result_rows l) i
     ∧ result_rows l !! i = Some (normalize_row row ++ ["MISSING"])).
Proof.
  intros Hr Hc Hi. unfold is_found, is_missing. rewrite result_rows_lookup.
  assert ((original_row <$> l) !! i = Some (normalize_row row)) as Hl.
  { rewrite Hr. by apply rows_lookup. }
  rewrite list_lookup_fmap in Hl. destruct (l !! i) as [e|] eqn:He; simplify_eq/=.
  eapply Forall_lookup_1 in Hc; [|done]. rewrite Hl.
  pose proof (status_field (normalize_row row)) as Hs.
  destruct Hc as [[_ ->]|[_ ->]]; [left|right].
  - split; [|done]. eexists. split; [done|]. apply Hs, normalize_row_length.
  - split; [|split; [|done]].
    + intros (r & [= <-] & H). rewrite Hs in H by apply normalize_row_length. done.
    + eexists. split; [done|]. apply Hs, normalize_row_length.
Qed.

Lemma final_maximal i j rowa rowb :
  ta !! i = Some rowa → tb !! j = Some rowb →
  compatible (normalize_row rowa) (normalize_row rowb) →
  (∃ j', (i, j') ∈ matched_pairs ta tb) ∨ (∃ i', (i', j) ∈ matched_pairs ta tb).
Proof.
  intros Ha Hb Hc. pose proof (invariant_final ta tb) as Hinv.
  destruct (inv_maximal _ _ _ Hinv i j (normalize_row rowa) (normalize_row rowb)) as [H|H].
  - apply lookup_lt_Some in Ha. lia.
  - by apply rows_lookup.
  - by apply rows_lookup.
  - done.
  - left. apply is_found_a, is_found_result;
      [apply (rows4_states ta tb _ A)|apply (inv_consistent_a _ _ _ Hinv)|done].
  - right. apply is_found_b, is_found_result;
      [apply (rows4_states ta tb _ B)|apply (inv_consistent_b _ _ _ Hinv)|done].
Qed.

End final.

Section unparseable.

Lemma unparseable_not_paired_a (ta tb : list raw_row) i row j :
  ta !! i = Some row → parse_date (date_field row) = Ok None →
  (i, j) ∉ matched_pairs ta tb.
Proof.
  intros Hi Hd%parse_date_row_date
    (rowa & rowb & ? & ? & _ & da & db & ? & _)%matched_pairs_compatible.
  simplify_eq; congruence.
Qed.

Lemma unparseable_not_paired_b (ta tb : list raw_row) j row i :
  tb !! j = Some row → parse_date (date_field row) = Ok None →
  (i, j) ∉ matched_pairs ta tb.
Proof.
  intros Hi Hd%parse_date_row_date
    (rowa & rowb & ? & ? & _ & da & db & _ & ? & _)%matched_pairs_compatible.
  simplify_eq; congruence.
Qed.

Lemma unparseable_missing (ta tb : list raw_row) :
  ∃ ra rb,
    reconcile_accounts ta tb = Ok (ra, rb)
    ∧ (∀ i row, ta !! i = Some row → parse_date (date_field row) = Ok None →
         ra !! i = Some (normalize_row row ++ ["MISSING"]))
    ∧ (∀ j row, tb !! j = Some row → parse_date (date_field row) = Ok None →
         rb !! j = Some (normalize_row row ++ ["MISSING"])).
Proof.
  rewrite reconcile_accounts_states. eexists _, _. split; [done|].
  pose proof (invariant_final ta tb) as Hinv. split.
  - intros i row Hi Hd.
    destruct (found_or_missing ta (processed_a (states ta tb (length ta + length tb))) i row)
      as [[Hf _]|(_ & _ & Hm)]; [apply rows_a|apply (inv_consistent_a _ _ _ Hinv)|done| |done].
    apply is_found_a in Hf as (j & Hf). by eapply unparseable_not_paired_a in Hf.
  - intros j row Hj Hd.
    destruct (found_or_missing tb (processed_b (states ta tb (length ta + length tb))) j row)
      as [[Hf _]|(_ & _ & Hm)]; [apply rows_b|apply (inv_consistent_b _ _ _ Hinv)|done| |done].
    apply is_found_b in Hf as (i & Hf). by eapply unparseable_not_paired_b in Hf.
Qed.

End unparseable.

Section first_fit.

Lemma find_first {X} (f : X → bool) l1 c l2 :
  (∀ x, x ∈ l1 → f x = false) → f c = true → List.find f (l1 ++ c :: l2) = Some c.
Proof.
  induction l1 as [|x l1 IH]; intros H1 Hc; simpl; [by rewrite Hc|].
  rewrite (H1 x) by by left. apply IH; [|done]. intros y Hy. apply H1. by right.
Qed.

Lemma find_nothing {X} (f : X → bool) l :
  (∀ x, x ∈ l → f x = false) → List.find f l = None.
Proof.
  induction l as [|x l IH]; intros H1; simpl; [done|].
  rewrite (H1 x) by by left. apply IH. intros y Hy. apply H1. by right.
Qed.

Lemma lookup_entries_marked s i tgt j σ e et :
  entries s σ !! i = Some e → entries tgt σ !! j = Some et →
  entries s (mark (tgt, j) (mark (s, i) σ)) !! i = Some (found e)
  ∧ entries tgt (mark (tgt, j) (mark (s, i) σ)) !! j = Some (found et)
  ∧ ∀ s' i', (s', i') ≠ (s, i) → (s', i') ≠ (tgt, j) →
      entries s' (mark (tgt, j) (mark (s, i) σ)) !! i' = entries s' σ !! i'.
Proof.
  intros He Het. split; [|split].
  - destruct (decide ((tgt, j) = (s, i))) as [[= -> ->]|Hne].
    + rewrite !lookup_mark_eq, He. done.
    + rewrite lookup_mark_ne by done. by rewrite lookup_mark_eq, He.
  - rewrite lookup_mark_eq. destruct (decide ((s, i) = (tgt, j))) as [[= -> ->]|Hne].
    + rewrite lookup_mark_eq, Het. done.
    + rewrite lookup_mark_ne by done. by rewrite Het.
  - intros s' i' H1 H2. by rewrite !lookup_mark_ne.
Qed.

End first_fit.

(** * Keys *)

Section keys.

Lemma all_digits_string_of_uint u : all_digits (NilEmpty.string_of_uint u) = true.
Proof. induction u; simpl; done. Qed.

Lemma all_digits_NilZero u :
  all_digits (NilZero.string_of_uint u) = true
  ∧ NilZero.string_of_uint u ≠ EmptyString.
Proof.
  destruct u; (split; [try done; apply (all_digits_string_of_uint (_ u)) | done]).
Qed.

Lemma isdigit_digit_char k : 0 ≤ k < 10 → PyStr.isdigit (PyFloat.digit_char k) = true.
Proof.
  intros Hk.
  assert (k = 0 ∨ k = 1 ∨ k = 2 ∨ k = 3 ∨ k = 4 ∨ k = 5 ∨ k = 6 ∨ k = 7 ∨ k = 8 ∨ k = 9)
    as Hc by lia.
  repeat (destruct Hc as [->|Hc]; [done|]). by subst.
Qed.

Lemma frac6_digits r :
  all_digits (PyFloat.frac6 r) = true ∧ String.length (PyFloat.frac6 r) = 6%nat.
Proof.
  split; [|done]. unfold all_digits, PyFloat.frac6.
  rewrite list_ascii_of_string_of_list_ascii. simpl.
  rewrite !isdigit_digit_char; [done|apply Z.mod_pos_bound; lia..].
Qed.

Lemma format_6f_finite neg m e : six_decimals (PyFloat.format_6f (PyFloat.Fin neg m e)).
Proof.
  unfold PyFloat.format_6f.
  eexists (PyFloat.sign_str neg), _, _. split; [done|].
  split; [destruct neg; auto|].
  split; [apply all_digits_NilZero|]. split; [apply all_digits_NilZero|].
  apply frac6_digits.
Qed.

Lemma not_six_decimals_nan : ¬ six_decimals "nan".
Proof.
  intros (sg & ip & fr & Heq & [->| ->] & Hne & Hip & _); simpl in Heq.
  - destruct ip as [|c ip]; [done|]. simpl in Heq. injection Heq as <- _.
    by vm_compute in Hip.
  - done.
Qed.

End keys.

(** * The variant with a late index over A *)

Section late_index.

Variables ta tb : list raw_row.

Lemma index_unmatched_entries_spec (idx : nat) (l : list entry) (ix : index) :
  rows4 l →
  ∃ ix' : index, index_unmatched_entries idx l ix = Ok ix'
    ∧ ∀ k, ix' !! k = extend (ix !! k) (candidates (λ e, negb (matched e)) k idx l).
Proof.
  revert idx ix. induction l as [|e l IH]; intros idx ix H4; simpl.
  { by exists ix. }
  apply Forall_cons in H4 as [He H4].
  destruct (matched e); simpl.
  { destruct (IH (S idx) ix H4) as (ix' & -> & Hix'). exists ix'. split; [done|].
    intros k. rewrite Hix'. by destruct (row_date (original_row e)). }
  rewrite getitem_row0 by done. simpl. rewrite parse_date_ok. simpl.
  unfold row_date.
  destruct (date_of (field (original_row e) 0)) as [d|]; [|by apply IH].
  rewrite create_index_key_ok by done. simpl.
  destruct (IH (S idx) (<[key_of (original_row e) :=
              (default [] (ix !! key_of (original_row e)) ++ [(d, idx)])%list]> ix) H4)
    as (ix' & -> & Hix').
  exists ix'. split; [done|]. intros k. rewrite Hix'.
  by rewrite lookup_extend_insert.
Qed.

Lemma build_index_unmatched_sound (l : list entry) :
  rows4 l →
  ∃ ix : index, build_index_unmatched l = Ok ix ∧ index_sound ix l.
Proof.
  intros H4. destruct (index_unmatched_entries_spec 0 l ∅ H4) as (ix & Hix & Hl).
  exists (sort_by_date <$> ix). unfold build_index_unmatched. rewrite Hix.
  split; [done|]. intros k bucket d j Hb Hc.
  rewrite lookup_fmap, Hl, lookup_empty, extend_None in Hb.
  assert (bucket = sort_by_date (candidates (λ e, negb (matched e)) k 0 l)) as ->.
  { destruct (candidates _ k 0 l); [done|]. by injection Hb. }
  apply elem_of_sort_by_date, elem_of_candidates in Hc as (e & ? & ? & ? & _).
  by exists e.
Qed.

End late_index.

(** * Runs on concrete ledgers *)

Section scenarios.

Let row (d dep amt ben : string) : raw_row :=
  RowSeq [CText d; CText dep; CText amt; CText ben].

Example one_day_apart :
  reconcile_accounts [row "2024-01-01" "Sales" "100.00" "Alice"]
                     [row "2024-01-02" "Sales" "100.00" "Alice"]
  = Ok ([["2024-01-01"; "Sales"; "100.00"; "Alice"; "FOUND"]],
        [["2024-01-02"; "Sales"; "100.00"; "Alice"; "FOUND"]]).
Proof. by vm_compute. Qed.

Example three_days_apart :
  reconcile_accounts [row "2024-01-01" "Sales" "100.00" "Alice"]
                     [row "2024-01-04" "Sales" "100.00" "Alice"]
  = Ok ([["2024-01-01"; "Sales"; "100.00"; "Alice"; "MISSING"]],
        [["2024-01-04"; "Sales"; "100.00"; "Alice"; "MISSING"]]).
Proof. by vm_compute. Qed.

Example amounts_normalized :
  reconcile_accounts [row "2024-01-01" "Sales" "100" "Alice"]
                     [row "2024-01-01" "sales" "100.00" "ALICE"]
  = Ok ([["2024-01-01"; "Sales"; "100"; "Alice"; "FOUND"]],
        [["2024-01-01"; "sales"; "100.00"; "ALICE"; "FOUND"]]).
Proof. by vm_compute. Qed.

Example bucket_exhausted :
  reconcile_accounts [row "2024-01-01" "Sales" "100.00" "Alice";
                      row "2024-01-02" "Sales" "100.00" "Alice"]
                     [row "2024-01-01" "Sales" "100.00" "Alice"]
  = Ok ([["2024-01-01"; "Sales"; "100.00"; "Alice"; "FOUND"];
         ["2024-01-02"; "Sales"; "100.00"; "Alice"; "MISSING"]],
        [["2024-01-01"; "Sales"; "100.00"; "Alice"; "FOUND"]]).
Proof. by vm_compute. Qed.

Example malformed_rows :
  reconcile_accounts [RowOther; RowSeq [CNone; CText " x "];
                      RowSeq [CText "2024-03-01"; CText "Ops"; CText "nan"; CText "Bob";
                              CText "extra"]]
                     [row "01/03/2024" "Ops" "nan" "Bob"; row " 2024-3-2" "OPS" "NaN" "bob"]
  = Ok ([[EmptyString; EmptyString; EmptyString; EmptyString; "MISSING"];
         [EmptyString; "x"; EmptyString; EmptyString; "MISSING"];
         ["2024-03-01"; "Ops"; "nan"; "Bob"; "FOUND"]],
        [["01/03/2024"; "Ops"; "nan"; "Bob"; "MISSING"];
         ["2024-3-2"; "OPS"; "NaN"; "bob"; "FOUND"]]).
Proof. by vm_compute. Qed.

Example pairs_of_a_run :
  matched_pairs [row "2024-01-05" "Sales" "7" "Ann"; row "2024-01-01" "Sales" "100.00" "Alice"]
                [row "2024-01-02" "Sales" "100.00" "Alice"; row "2024-01-05" "Sales" "7" "Ann"]
  = [(0, 1); (1, 0)]%nat.
Proof. by vm_compute. Qed.

End scenarios.

(** * The claims *)

(** C1. For all input lists, [reconcile_accounts] returns (it does not
    raise) two lists as long as its inputs; row [i] of a result is the
    normalized row [i] of the input, four fields that are the stripped
    texts of the first four cells (empty where a cell is missing or
    [None]), followed by a status that is FOUND or MISSING. *)
Theorem reconcile_accounts_shape (ta tb : list raw_row) :
  ∃ ra rb,
    reconcile_accounts ta tb = Ok (ra, rb)
    ∧ length ra = length ta ∧ length rb = length tb
    ∧ (∀ i row, ta !! i = Some row →
         ∃ st, ra !! i = Some (normalize_row row ++ [st])
               ∧ (st = "FOUND" ∨ st = "MISSING"))
    ∧ (∀ j row, tb !! j = Some row →
         ∃ st, rb !! j = Some (normalize_row row ++ [st])
               ∧ (st = "FOUND" ∨ st = "MISSING"))
    ∧ (∀ row : raw_row,
         length (normalize_row row) = 4%nat
         ∧ (∀ j, (j < 4)%nat →
              normalize_row row !! j = Some (PyStr.strip (cell_text row j)))
         ∧ (∀ f, f ∈ normalize_row row → PyStr.strip f = f)).
Proof.
  rewrite reconcile_accounts_states. eexists _, _. split; [done|].
  pose proof (invariant_final ta tb) as Hinv.
  set (σ := states ta tb (length ta + length tb)) in *.
  assert (∀ t (l : list entry) i row,
            original_row <$> l = rows t → Forall consistent l → t !! i = Some row →
            ∃ st, result_rows l !! i = Some (normalize_row row ++ [st])
                  ∧ (st = "FOUND" ∨ st = "MISSING")) as Hrow.
  { intros t l i row Hr Hc Hi. rewrite result_rows_lookup.
    assert ((original_row <$> l) !! i = Some (normalize_row row)) as Hl.
    { rewrite Hr. unfold rows. by rewrite list_lookup_fmap, Hi. }
    rewrite list_lookup_fmap in Hl. destruct (l !! i) as [e|] eqn:He; simplify_eq/=.
    eapply Forall_lookup_1 in Hc; [|done]. exists (status e). rewrite Hl.
    split; [done|]. destruct Hc as [[_ ->]|[_ ->]]; auto. }
  split; [|split; [|split; [|split]]].
  - unfold result_rows. rewrite length_fmap. apply length_a.
  - unfold result_rows. rewrite length_fmap. apply length_b.
  - intros i row. apply Hrow; [apply rows_a | apply (inv_consistent_a _ _ _ Hinv)].
  - intros j row. apply Hrow; [apply rows_b | apply (inv_consistent_b _ _ _ Hinv)].
  - intros row. split; [apply normalize_row_length|]. split.
    + intros j Hj. by apply normalize_row_lookup.
    + intros f Hf. apply list_elem_of_lookup in Hf as [j Hj].
      assert (j < 4)%nat as Hlt.
      { apply lookup_lt_Some in Hj. by rewrite normalize_row_length in Hj. }
      rewrite normalize_row_lookup in Hj by done. injection Hj as <-. apply strip_idemp.
Qed.

(** C2. The pairs of entries that the visits of a run mark together form
    a one-to-one correspondence between the rows of the first result with
    status FOUND and those of the second; the records of a pair have the
    same key and dates at most one day apart; the two results have as
    many FOUND rows. *)
Theorem found_bijection (ta tb : list raw_row) :
  ∃ ra rb,
    reconcile_accounts ta tb = Ok (ra, rb)
    ∧ (∀ i, is_found ra i ↔ ∃ j, (i, j) ∈ matched_pairs ta tb)
    ∧ (∀ j, is_found rb j ↔ ∃ i, (i, j) ∈ matched_pairs ta tb)
    ∧ (∀ i j j', (i, j) ∈ matched_pairs ta tb → (i, j') ∈ matched_pairs ta tb → j = j')
    ∧ (∀ i i' j, (i, j) ∈ matched_pairs ta tb → (i', j) ∈ matched_pairs ta tb → i = i')
    ∧ (∀ i j, (i, j) ∈ matched_pairs ta tb →
         ∃ rowa rowb da db,
           ta !! i = Some rowa ∧ tb !! j = Some rowb
           ∧ create_index_key (normalize_row rowa) = create_index_key (normalize_row rowb)
           ∧ parse_date (date_field rowa) = Ok (Some da)
           ∧ parse_date (date_field rowb) = Ok (Some db)
           ∧ Z.abs (PyDate.sub_days da db) ≤ 1)
    ∧ length (found_rows ra) = length (found_rows rb).
Proof.
  rewrite reconcile_accounts_states. eexists _, _. split; [done|].
  pose proof (invariant_final ta tb) as [].
  fold (matched_pairs ta tb) in *.
  set (σ := states ta tb (length ta + length tb)) in *.
  assert (rows4 (processed_a σ)) as H4a by apply (rows4_states ta tb _ A).
  assert (rows4 (processed_b σ)) as H4b by apply (rows4_states ta tb _ B).
  assert (∀ (P : list (nat * nat)) i, i ∈ P.*1 ↔ ∃ j, (i, j) ∈ P) as Hfst.
  { intros P i. rewrite list_elem_of_fmap. split.
    - intros ([i' j] & -> & H). by exists j.
    - intros (j & H). by exists (i, j). }
  assert (∀ (P : list (nat * nat)) j, j ∈ P.*2 ↔ ∃ i, (i, j) ∈ P) as Hsnd.
  { intros P j. rewrite list_elem_of_fmap. split.
    - intros ([i j'] & -> & H). by exists i.
    - intros (i & H). by exists (i, j). }
  split; [|split; [|split; [|split; [|split]]]].
  - intros i. by rewrite is_found_result, <- inv_matched_a0, Hfst.
  - intros j. by rewrite is_found_result, <- inv_matched_b0, Hsnd.
  - intros i j j' H1 H2.
    apply list_elem_of_lookup in H1 as [p1 H1], H2 as [p2 H2].
    assert (p1 = p2) as ->; [|congruence].
    eapply (NoDup_lookup _ _ _ i inv_nodup_a0); by rewrite list_lookup_fmap, ?H1, ?H2.
  - intros i i' j H1 H2.
    apply list_elem_of_lookup in H1 as [p1 H1], H2 as [p2 H2].
    assert (p1 = p2) as ->; [|congruence].
    eapply (NoDup_lookup _ _ _ j inv_nodup_b0); by rewrite list_lookup_fmap, ?H1, ?H2.
  - intros i j (rowa & rowb & Ha & Hb & Hk & da & db & Hda & Hdb & Hd)%matched_pairs_compatible.
    exists rowa, rowb, da, db. split; [done|]. split; [done|].
    rewrite !create_index_key_ok, Hk by apply normalize_row_length.
    split; [done|]. by rewrite !parse_date_row_date.
  - rewrite !found_rows_result by done. destruct inv_count0. congruence.
Qed.

(** C3. Take a record of A and a record of B with the same index key and
    parseable dates.  If the dates are two or more days apart, no visit
    marks the two together.  If moreover no other record of either ledger
    is in the bucket of that key, then both end FOUND, paired with each
    other, when the dates are exactly one day apart, and both end MISSING
    when they are two or more days apart. *)
Theorem date_tolerance (ta tb : list raw_row) (i j : nat) (rowa rowb : raw_row)
    (k : string * string * string) (da db : date) :
  ta !! i = Some rowa → tb !! j = Some rowb →
  create_index_key (normalize_row rowa) = Ok k →
  create_index_key (normalize_row rowb) = Ok k →
  parse_date (date_field rowa) = Ok (Some da) →
  parse_date (date_field rowb) = Ok (Some db) →
  ∃ ra rb,
    reconcile_accounts ta tb = Ok (ra, rb)
    ∧ (2 ≤ Z.abs (PyDate.sub_days da db) → (i, j) ∉ matched_pairs ta tb)
    ∧ (sole_candidate ta i k → sole_candidate tb j k →
         (Z.abs (PyDate.sub_days da db) = 1 →
            is_found ra i ∧ is_found rb j ∧ (i, j) ∈ matched_pairs ta tb)
         ∧ (2 ≤ Z.abs (PyDate.sub_days da db) → is_missing ra i ∧ is_missing rb j)).
Proof.
  intros Ha Hb Hka Hkb Hda Hdb.
  apply create_index_key_key_of in Hka, Hkb. apply parse_date_row_date in Hda, Hdb.
  rewrite reconcile_accounts_states. eexists _, _. split; [done|].
  assert ((i, j) ∈ matched_pairs ta tb → Z.abs (PyDate.sub_days da db) ≤ 1) as Hpair.
  { intros (rowa' & rowb' & ? & ? & _ & da' & db' & ? & ? & ?)%matched_pairs_compatible.
    by simplify_eq. }
  split; [intros ? ?%Hpair; lia|].
  intros Hsa Hsb.
  assert (∀ j', (i, j') ∈ matched_pairs ta tb → j' = j) as Hj.
  { intros j' (rowa' & rowb' & ? & Hb' & Hk & da' & db' & ? & Hd' & _)%matched_pairs_compatible.
    simplify_eq. destruct (decide (j' = j)) as [|Hne]; [done|].
    specialize (Hsb j' rowb' Hb' Hne). rewrite create_index_key_key_of in Hsb.
    rewrite parse_date_row_date in Hsb.
    rewrite Hsb in Hd' by (unfold key_of; congruence). done. }
  assert (∀ i', (i', j) ∈ matched_pairs ta tb → i' = i) as Hi.
  { intros i' (rowa' & rowb' & Ha' & ? & Hk & da' & db' & Hd' & ? & _)%matched_pairs_compatible.
    simplify_eq. destruct (decide (i' = i)) as [|Hne]; [done|].
    specialize (Hsa i' rowa' Ha' Hne). rewrite create_index_key_key_of in Hsa.
    rewrite parse_date_row_date in Hsa.
    rewrite Hsa in Hd' by (unfold key_of; congruence). done. }
  pose proof (invariant_final ta tb) as Hinv.
  split.
  - intros H1.
    assert ((i, j) ∈ matched_pairs ta tb) as Hij.
    { destruct (final_maximal ta tb i j rowa rowb Ha Hb) as [(j' & H)|(i' & H)].
      - split; [congruence|]. exists da, db. split; [done|]. split; [done|]. lia.
      - by rewrite <- (Hj j' H).
      - by rewrite <- (Hi i' H). }
    split; [apply is_found_a; eauto|]. split; [apply is_found_b; eauto|done].
  - intros H2. split.
    + destruct (found_or_missing ta (processed_a (states ta tb (length ta + length tb))) i rowa)
        as [[Hf _]|(_ & Hm & _)]; [apply rows_a|apply (inv_consistent_a _ _ _ Hinv)|done| |done].
      apply is_found_a in Hf as (j' & Hf). pose proof (Hj j' Hf) as ->.
      apply Hpair in Hf. lia.
    + destruct (found_or_missing tb (processed_b (states ta tb (length ta + length tb))) j rowb)
        as [[Hf _]|(_ & Hm & _)]; [apply rows_b|apply (inv_consistent_b _ _ _ Hinv)|done| |done].
      apply is_found_b in Hf as (i' & Hf). pose proof (Hi i' Hf) as ->.
      apply Hpair in Hf. lia.
Qed.

Lemma date_tolerance_witness :
  ∃ ra rb,
    reconcile_accounts ledger_jan1 ledger_jan2 = Ok (ra, rb)
    ∧ is_found ra 0 ∧ is_found rb 0
    ∧ (0%nat, 0%nat) ∈ matched_pairs ledger_jan1 ledger_jan2.
Proof.
  destruct (date_tolerance ledger_jan1 ledger_jan2 0 0
              (RowSeq [CText "2024-01-01"; CText "Sales"; CText "100.00"; CText "Alice"])
              (RowSeq [CText "2024-01-02"; CText "Sales"; CText "100.00"; CText "Alice"])
              ("sales", "100.000000", "alice") (PyDate.Date 2024 1 1) (PyDate.Date 2024 1 2))
    as (ra & rb & Hres & _ & Hsole); try (vm_compute; reflexivity).
  exists ra, rb. split; [exact Hres|].
  apply Hsole.
  - intros [|i'] row' Hi Hne; [by destruct Hne | discriminate Hi].
  - intros [|i'] row' Hi Hne; [by destruct Hne | discriminate Hi].
  - vm_compute; reflexivity.
Defined.

(** C4. Let the source entry be unmatched with a date that parses and a
    key whose bucket is in the index built over the target list.  The
    bucket is in ascending date order.  If a candidate of the bucket is
    unmatched and within one day of the source date, and every candidate
    before it is matched or further away, [find_and_mark] returns FOUND
    and the state in which exactly the source and that target have become
    FOUND and matched; if every candidate is matched or further away it
    returns MISSING and the state unchanged. *)
Theorem find_and_mark_first_fit (σ : state) (s tgt : side) (i : nat) (e : entry)
    (tix : index) (sd : date) (k : string * string * string)
    (bucket : list (date * nat)) :
  entries s σ !! i = Some e → matched e = false →
  length (original_row e) = 4%nat →
  rows4 (entries tgt σ) → build_index (entries tgt σ) = Ok tix →
  parse_date (field (original_row e) 0) = Ok (Some sd) →
  create_index_key (original_row e) = Ok k →
  tix !! k = Some bucket →
  ascending bucket
  ∧ (∀ l1 td tj l2 et,
       bucket = l1 ++ (td, tj) :: l2 →
       (∀ d j, (d, j) ∈ l1 →
          (∃ t, entries tgt σ !! j = Some t ∧ matched t = true)
          ∨ 1 < Z.abs (PyDate.sub_days sd d)) →
       entries tgt σ !! tj = Some et → matched et = false →
       Z.abs (PyDate.sub_days sd td) ≤ 1 →
       ∃ σ', find_and_mark (s, i) tix tgt σ = Ok ("FOUND", σ')
             ∧ entries s σ' !! i = Some (Entry (original_row e) "FOUND" true)
             ∧ entries tgt σ' !! tj = Some (Entry (original_row et) "FOUND" true)
             ∧ ∀ s' i', (s', i') ≠ (s, i) → (s', i') ≠ (tgt, tj) →
                 entries s' σ' !! i' = entries s' σ !! i')
  ∧ ((∀ d j, (d, j) ∈ bucket →
        (∃ t, entries tgt σ !! j = Some t ∧ matched t = true)
        ∨ 1 < Z.abs (PyDate.sub_days sd d)) →
     find_and_mark (s, i) tix tgt σ = Ok ("MISSING", σ)).
Proof.
  intros He Hm Hlen H4 Hix Hsd Hk Hb.
  rewrite build_index_of in Hix by done. injection Hix as <-.
  rewrite create_index_key_ok in Hk by done. injection Hk as <-.
  rewrite parse_date_ok in Hsd. injection Hsd as Hsd.
  assert (in_range (index_of (entries tgt σ)) (length (entries tgt σ))) as Hr.
  { by apply in_range_index_of. }
  assert (∀ (l : list (date * nat)),
            (∀ d j, (d, j) ∈ l →
               (∃ t, entries tgt σ !! j = Some t ∧ matched t = true)
               ∨ 1 < Z.abs (PyDate.sub_days sd d)) →
            ∀ c, c ∈ l → acceptable sd (entries tgt σ) c = false) as Hrej.
  { intros l Hl [d j] Hc. unfold acceptable. simpl.
    destruct (Hl d j Hc) as [(t & -> & ->)|Hfar]; [done|].
    destruct (entries tgt σ !! j); [|done].
    apply andb_false_iff. right. apply Z.leb_gt. lia. }
  rewrite (find_and_mark_spec s i _ tgt σ e He Hlen Hr).
  unfold choose, row_date. rewrite Hsd, Hb.
  split; [|split].
  - rewrite lookup_index_of in Hb by done.
    destruct (extend None _) as [c|]; simplify_eq/=. apply sort_by_date_ascending.
  - intros l1 td tj l2 et -> Hl1 Het Hmt Hd.
    rewrite (find_first _ l1 (td, tj) l2).
    + exists (mark (tgt, tj) (mark (s, i) σ)). split; [done|].
      destruct (lookup_entries_marked s i tgt tj σ e et He Het) as (H1 & H2 & H3).
      by rewrite H1, H2.
    + by apply Hrej.
    + unfold acceptable. simpl. rewrite Het, Hmt. simpl. by apply Z.leb_le.
  - intros Hall. by rewrite find_nothing by by apply Hrej.
Qed.

Lemma find_and_mark_first_fit_witness :
  ∃ σ',
    find_and_mark (A, 0%nat) (index_of (preprocess ledger_jan2)) B
      (initial ledger_jan1 ledger_jan2) = Ok ("FOUND", σ')
    ∧ entries A σ' !! 0%nat
      = Some (Entry ["2024-01-01"; "Sales"; "100.00"; "Alice"] "FOUND" true)
    ∧ entries B σ' !! 0%nat
      = Some (Entry ["2024-01-02"; "Sales"; "100.00"; "Alice"] "FOUND" true).
Proof.
  destruct (find_and_mark_first_fit (initial ledger_jan1 ledger_jan2) A B 0
              (Entry ["2024-01-01"; "Sales"; "100.00"; "Alice"] "MISSING" false)
              (index_of (preprocess ledger_jan2)) (PyDate.Date 2024 1 1)
              ("sales", "100.000000", "alice") [(PyDate.Date 2024 1 2, 0%nat)])
    as (_ & Hfound & _).
  - reflexivity.
  - reflexivity.
  - reflexivity.
  - apply rows4_preprocess.
  - vm_compute. reflexivity.
  - vm_compute. reflexivity.
  - vm_compute. reflexivity.
  - vm_compute. reflexivity.
  - destruct (Hfound [] (PyDate.Date 2024 1 2) 0%nat []
                (Entry ["2024-01-02"; "Sales"; "100.00"; "Alice"] "MISSING" false))
      as (σ' & Hrun & Ha & Hb & _).
    + reflexivity.
    + intros d j Hin. by apply elem_of_nil in Hin.
    + reflexivity.
    + reflexivity.
    + vm_compute. discriminate.
    + exists σ'. split; [exact Hrun|]. split; [exact Ha | exact Hb].
Defined.

(** The claim C5 read on a record whose amount is the text of a NaN: the
    amount parses as a float and its key component has no decimal places. *)
Lemma create_index_key_nan :
  PyFloat.of_str "nan" = Ok PyFloat.NaN
  ∧ create_index_key ["2024-01-01"; "Sales"; "nan"; "Alice"] = Ok ("sales", "nan", "alice")
  ∧ ¬ six_decimals "nan".
Proof. split; [done|]. split; [done|]. apply not_six_decimals_nan. Qed.

(** C5, amended. For a record of four fields the key is the lower-cased
    department, an amount component and the lower-cased beneficiary.  When
    the amount parses as a float the component is the float in format
    [.6f], which has exactly six decimal places when the float is finite
    and is inf, -inf or nan otherwise; so two amounts that parse to the
    same float, as 123.4 and 123.400000 do, give the same component.  When
    the amount does not parse the component is the amount itself, so two
    such records have equal keys only for identical amounts. *)
Theorem create_index_key_components (d dep amt ben : string) :
  ∃ a,
    create_index_key [d; dep; amt; ben] = Ok (PyStr.lower dep, a, PyStr.lower ben)
    ∧ (∀ x, PyFloat.of_str amt = Ok x → a = PyFloat.format_6f x)
    ∧ (∀ neg m e, PyFloat.of_str amt = Ok (PyFloat.Fin neg m e) → six_decimals a)
    ∧ (∀ neg, PyFloat.of_str amt = Ok (PyFloat.Inf neg) → a = if neg then "-inf" else "inf")
    ∧ (PyFloat.of_str amt = Ok PyFloat.NaN → a = "nan")
    ∧ ((∀ x, PyFloat.of_str amt ≠ Ok x) → a = amt)
    ∧ (∀ d' dep' amt' ben' x,
         PyFloat.of_str amt = Ok x → PyFloat.of_str amt' = Ok x →
         PyStr.lower dep' = PyStr.lower dep → PyStr.lower ben' = PyStr.lower ben →
         create_index_key [d'; dep'; amt'; ben'] = create_index_key [d; dep; amt; ben])
    ∧ (∀ d' dep' amt' ben',
         (∀ x, PyFloat.of_str amt ≠ Ok x) → (∀ x, PyFloat.of_str amt' ≠ Ok x) →
         create_index_key [d'; dep'; amt'; ben'] = create_index_key [d; dep; amt; ben] →
         amt' = amt)
    ∧ create_index_key ["2024-01-01"; "Sales"; "123.4"; "Alice"]
      = Ok ("sales", "123.400000", "alice")
    ∧ create_index_key ["2024-01-01"; "SALES"; "123.400000"; "ALICE"]
      = Ok ("sales", "123.400000", "alice").
Proof.
  exists (amount_key amt).
  assert (∀ d dep amt ben,
            create_index_key [d; dep; amt; ben]
            = Ok (PyStr.lower dep, amount_key amt, PyStr.lower ben)) as Hkey.
  { intros. by rewrite create_index_key_ok. }
  split; [apply Hkey|]. unfold amount_key.
  split; [by intros x ->|]. split; [intros neg m e ->; apply format_6f_finite|].
  split; [by intros [] ->|]. split; [by intros ->|].
  split; [|split; [|split]].
  - intros Hno. destruct (PyFloat.of_str amt) as [x|]; [by destruct (Hno x)|done].
  - intros d' dep' amt' ben' x Hx Hx' Hdep Hben. rewrite !Hkey. unfold amount_key.
    by rewrite Hx, Hx', Hdep, Hben.
  - intros d' dep' amt' ben' Hno Hno'. rewrite !Hkey. unfold amount_key.
    destruct (PyFloat.of_str amt) as [x|]; [by destruct (Hno x)|].
    destruct (PyFloat.of_str amt') as [x|]; [by destruct (Hno' x)|]. congruence.
  - split; by vm_compute.
Qed.

(** C6. The index built over a ledger holds a pair for a position exactly
    when the date field of the record at that position parses; the pair
    is in the bucket of the record's key and carries its date; and every
    bucket is in ascending date order, the pairs of one date in the order
    of their positions in the ledger. *)
Theorem build_index_buckets (t : list raw_row) :
  ∃ ix : index,
    build_index (preprocess t) = Ok ix
    ∧ (∀ i row, t !! i = Some row →
         (∃ k bucket d, ix !! k = Some bucket ∧ (d, i) ∈ bucket)
         ↔ ∃ d, parse_date (date_field row) = Ok (Some d))
    ∧ (∀ k d i,
         (∃ bucket, ix !! k = Some bucket ∧ (d, i) ∈ bucket)
         ↔ ∃ row, t !! i = Some row
                  ∧ parse_date (date_field row) = Ok (Some d)
                  ∧ create_index_key (normalize_row row) = Ok k)
    ∧ (∀ k bucket, ix !! k = Some bucket →
         ascending bucket ∧ StronglySorted before bucket).
Proof.
  exists (index_of (preprocess t)).
  split; [apply build_index_of, rows4_preprocess|].
  assert (∀ k d i,
            (∃ bucket, index_of (preprocess t) !! k = Some bucket ∧ (d, i) ∈ bucket)
            ↔ ∃ row, t !! i = Some row
                     ∧ parse_date (date_field row) = Ok (Some d)
                     ∧ create_index_key (normalize_row row) = Ok k) as Hmem.
  { intros k d i. rewrite elem_of_index_of by apply rows4_preprocess.
    rewrite rows_preprocess. split.
    - intros (r & (row & Hi & ->)%rows_lookup_inv & Hd & Hk). exists row.
      by rewrite parse_date_row_date, create_index_key_key_of.
    - intros (row & Hi & Hd%parse_date_row_date & Hk%create_index_key_key_of).
      exists (normalize_row row). split; [by apply rows_lookup|done]. }
  split; [|split; [done|]].
  - intros i row Hi. split.
    + intros (k & bucket & d & Hb & Hc).
      destruct (proj1 (Hmem k d i)) as (row' & ? & ? & _); [eauto|].
      simplify_eq. eauto.
    + intros (d & Hd).
      destruct (proj2 (Hmem (key_of (normalize_row row)) d i)) as (bucket & ? & ?).
      { exists row. by rewrite create_index_key_key_of. }
      eauto.
  - intros k bucket Hb. rewrite lookup_index_of in Hb by apply rows4_preprocess.
    rewrite extend_None in Hb.
    assert (bucket = sort_by_date (candidates (λ _, true) k 0 (preprocess t))) as ->.
    { destruct (candidates (λ _, true) k 0 (preprocess t)); [done|]. by injection Hb. }
    split; [apply sort_by_date_ascending|].
    apply sort_by_date_before, candidates_increasing.
Qed.

(** C7. A record whose date does not parse has no pair in the index of
    its own ledger; [find_and_mark] on such a source returns MISSING and
    the state it was given, whatever the index and the target list; no
    visit of a run pairs such a record, as source or as target;
    [parse_date] raises for no string and [reconcile_accounts] raises for
    no input. *)
Theorem unparseable_date :
  (∀ (t : list raw_row) i row (ix : index),
     t !! i = Some row → parse_date (date_field row) = Ok None →
     build_index (preprocess t) = Ok ix →
     ∀ k bucket c, ix !! k = Some bucket → c ∈ bucket → c.2 ≠ i)
  ∧ (∀ σ s i e date_str (tix : index) tgt,
       entries s σ !! i = Some e → original_row e !! 0%nat = Some date_str →
       parse_date date_str = Ok None →
       find_and_mark (s, i) tix tgt σ = Ok ("MISSING", σ))
  ∧ (∀ ta tb i j row,
       (ta !! i = Some row ∨ tb !! j = Some row) →
       parse_date (date_field row) = Ok None →
       (i, j) ∉ matched_pairs ta tb)
  ∧ (∀ date_str, ∃ d, parse_date date_str = Ok d)
  ∧ (∀ ta tb, ∃ res, reconcile_accounts ta tb = Ok res).
Proof.
  split; [|split; [|split; [|split]]].
  - intros t i row ix Hi Hd Hix k bucket [d i'] Hb Hc Heq. simpl in Heq. subst i'.
    rewrite build_index_of in Hix by apply rows4_preprocess. injection Hix as <-.
    destruct (proj1 (elem_of_index_of (preprocess t) k d i (rows4_preprocess t)))
      as (r & Hr & Hrd & _); [eauto|].
    rewrite rows_preprocess in Hr. rewrite (rows_lookup t i row Hi) in Hr.
    injection Hr as <-. apply parse_date_row_date in Hd. congruence.
  - intros σ s i e date_str tix tgt He H0 Hd. unfold find_and_mark, deref. simpl.
    rewrite (getitem_Some _ _ _ He). simpl. rewrite (getitem_Some _ _ _ H0). simpl.
    by rewrite Hd.
  - intros ta tb i j row [Hi|Hj] Hd.
    + by eapply unparseable_not_paired_a.
    + by eapply unparseable_not_paired_b.
  - intros s. exists (date_of s). apply parse_date_ok.
  - intros ta tb. rewrite reconcile_accounts_states. by eexists.
Qed.

(** C8. At every point of a run, between two visits, an entry has
    [matched] true exactly when its status is FOUND, and every entry
    starts unmatched with status MISSING; an entry that is matched at one
    point is the same entry, FOUND and matched, at every later point; and
    the visit of a matched source entry leaves the state as it is. *)
Theorem matched_iff_found (ta tb : list raw_row) (t t' : nat) :
  (t ≤ t')%nat → (t' ≤ length ta + length tb)%nat →
  ∃ σ0 σ σ',
    point ta tb 0 = Ok σ0 ∧ point ta tb t = Ok σ ∧ point ta tb t' = Ok σ'
    ∧ (∀ s e, e ∈ entries s σ0 → matched e = false ∧ status e = "MISSING")
    ∧ (∀ s e, e ∈ entries s σ → matched e = true ↔ status e = "FOUND")
    ∧ (∀ s i e, entries s σ !! i = Some e → matched e = true →
         entries s σ' !! i = Some e ∧ status e = "FOUND")
    ∧ (∀ s i e tix tgt, entries s σ !! i = Some e → matched e = true →
         visit s tix tgt i σ = Ok σ).
Proof.
  intros Ht Ht'. exists (states ta tb 0), (states ta tb t), (states ta tb t').
  rewrite !point_states by lia.
  split; [done|]. split; [done|]. split; [done|]. split; [|split; [|split]].
  - intros s e He. destruct s; simpl in He;
      apply list_elem_of_fmap in He as (row & -> & _); done.
  - intros s e He. pose proof (consistent_states ta tb t s) as Hc.
    rewrite Forall_forall in Hc. symmetry. by apply consistent_found, Hc.
  - intros s i e He Hm. split; [by eapply later_keeps_matched|].
    pose proof (consistent_states ta tb t s) as Hc.
    eapply Forall_lookup_1 in Hc; [|done]. by apply consistent_found.
  - intros s i e tix tgt He Hm. unfold visit, deref. simpl.
    rewrite (getitem_Some _ _ _ He). simpl. by rewrite Hm.
Qed.

Lemma matched_iff_found_witness :
  ∃ σ0 σ σ',
    point [RowSeq [CText "2024-01-01"; CText "Sales"; CText "100.00"; CText "Alice"]]
          [RowSeq [CText "2024-01-02"; CText "sales"; CText "100"; CText "ALICE"]] 0 = Ok σ0
    ∧ point [RowSeq [CText "2024-01-01"; CText "Sales"; CText "100.00"; CText "Alice"]]
            [RowSeq [CText "2024-01-02"; CText "sales"; CText "100"; CText "ALICE"]] 1 = Ok σ
    ∧ point [RowSeq [CText "2024-01-01"; CText "Sales"; CText "100.00"; CText "Alice"]]
            [RowSeq [CText "2024-01-02"; CText "sales"; CText "100"; CText "ALICE"]] 2 = Ok σ'
    ∧ (∀ s e, e ∈ entries s σ0 → matched e = false ∧ status e = "MISSING")
    ∧ (∀ s e, e ∈ entries s σ → matched e = true ↔ status e = "FOUND")
    ∧ (∀ s i e, entries s σ !! i = Some e → matched e = true →
         entries s σ' !! i = Some e ∧ status e = "FOUND")
    ∧ (∀ s i e tix tgt, entries s σ !! i = Some e → matched e = true →
         visit s tix tgt i σ = Ok σ).
Proof.
  apply (matched_iff_found
           [RowSeq [CText "2024-01-01"; CText "Sales"; CText "100.00"; CText "Alice"]]
           [RowSeq [CText "2024-01-02"; CText "sales"; CText "100"; CText "ALICE"]] 1 2);
    simpl; lia.
Defined.

(** C9. For every input, building the index over A before the first
    passage, as [reconcile_accounts] does, gives the result of the variant
    that builds it after the first passage from the entries still
    unmatched. *)
Theorem late_index_same_result (ta tb : list raw_row) :
  reconcile_accounts ta tb = reconcile_accounts_late ta tb.
Proof.
  rewrite reconcile_accounts_states, states_second.
  unfold reconcile_accounts_late. simpl.
  rewrite build_index_of by apply rows4_preprocess. simpl.
  rewrite passage_spec; simpl.
  2:{ intros i Hi%elem_of_seq. rewrite length_preprocess in *. lia. }
  2:{ apply rows4_preprocess. }
  2:{ apply in_range_index_of; [apply rows4_preprocess|done]. }
  rewrite length_preprocess, <- (foldl_step_first ta tb) by done.
  fold (initial ta tb). fold (states ta tb (length ta)).
  destruct (build_index_unmatched_sound (processed_a (states ta tb (length ta))))
    as (ix & -> & Hs); [apply (rows4_states ta tb _ A)|]. simpl.
  rewrite passage_spec.
  2:{ intros i Hi%elem_of_seq. simpl. lia. }
  2:{ apply (rows4_states ta tb _ B). }
  2:{ by apply in_range_sound. }
  simpl. by rewrite second_passage_sound.
Qed.

(** C10. [parse_date] returns a date exactly when [strptime] accepts the
    stripped field for ["%Y-%m-%d"], and [None] otherwise, as for a day
    that the month does not have, a date written with slashes or a date
    followed by a time; a record whose date field is not accepted ends
    MISSING, and no visit pairs it with any record. *)
Theorem parse_date_format :
  (∀ date_str d,
     parse_date date_str = Ok (Some d) ↔ PyDate.strptime (PyStr.strip date_str) = Ok d)
  ∧ (∀ date_str,
       parse_date date_str = Ok None ↔ ∃ e, PyDate.strptime (PyStr.strip date_str) = Raise e)
  ∧ parse_date " 2024-01-02 " = Ok (Some (PyDate.Date 2024 1 2))
  ∧ parse_date "2024-1-2" = Ok (Some (PyDate.Date 2024 1 2))
  ∧ parse_date "2024-02-30" = Ok None
  ∧ parse_date "02/01/2024" = Ok None
  ∧ parse_date "2024-01-02 10:30:00" = Ok None
  ∧ parse_date "2024-01-02T10:30:00" = Ok None
  ∧ (∀ ta tb, ∃ ra rb,
       reconcile_accounts ta tb = Ok (ra, rb)
       ∧ (∀ i row, ta !! i = Some row → parse_date (date_field row) = Ok None →
            ra !! i = Some (normalize_row row ++ ["MISSING"])
            ∧ ∀ j, (i, j) ∉ matched_pairs ta tb)
       ∧ (∀ j row, tb !! j = Some row → parse_date (date_field row) = Ok None →
            rb !! j = Some (normalize_row row ++ ["MISSING"])
            ∧ ∀ i, (i, j) ∉ matched_pairs ta tb)).
Proof.
  split; [|split].
  - intros s d. rewrite parse_date_ok. unfold date_of.
    destruct (PyDate.strptime (PyStr.strip s)); naive_solver.
  - intros s. rewrite parse_date_ok. unfold date_of.
    destruct (PyDate.strptime (PyStr.strip s)); naive_solver.
  - do 6 (split; [by vm_compute|]).
    intros ta tb. destruct (unparseable_missing ta tb) as (ra & rb & Hr & Ha & Hb).
    exists ra, rb. split; [done|]. split.
    + intros i row Hi Hd. split; [by apply Ha|].
      intros j. by eapply unparseable_not_paired_a.
    + intros j row Hj Hd. split; [by apply Hb|].
      intros i. by eapply unparseable_not_paired_b.
Qed.

(** * Further properties of the module *)

(** * Priority among the records of A *)

Section priority.

Variables ta tb : list raw_row.

Lemma pairs_upto_mono n m p :
  (n ≤ m)%nat → (m ≤ length ta + length tb)%nat →
  p ∈ pairs_upto ta tb n → p ∈ pairs_upto ta tb m.
Proof.
  induction 1 as [|m Hnm IH]; [done|]. intros Hm Hp.
  rewrite pairs_upto_S by lia. apply elem_of_app. left. apply IH; [lia|done].
Qed.

Lemma pairs_upto_lt n i j :
  (n ≤ length ta)%nat → (i, j) ∈ pairs_upto ta tb n → (i < n)%nat.
Proof.
  intros Hn Hp. pose proof (invariant_first ta tb n Hn) as Hinv.
  destruct (decide (i < n)%nat) as [|Hge]; [done|]. exfalso.
  apply (inv_unvisited _ _ _ Hinv i); [lia|].
  apply (inv_matched_a _ _ _ Hinv). apply list_elem_of_fmap. by exists (i, j).
Qed.

Lemma before_irrefl c : ¬ before c c.
Proof. intros [H|[_ H]]; [by rewrite lt_irrefl in H | lia]. Qed.

Lemma find_split {X} (f : X → bool) l c :
  List.find f l = Some c →
  ∃ l1 l2, l = l1 ++ c :: l2 ∧ ∀ x, x ∈ l1 → f x = false.
Proof.
  induction l as [|x l IH]; [done|]. simpl. destruct (f x) eqn:E.
  - intros [= ->]. exists [], l. split; [done|]. intros y Hy. by apply elem_of_nil in Hy.
  - intros (l1 & l2 & -> & H1)%IH. exists (x :: l1), l2. split; [done|].
    intros y [->|Hy]%elem_of_cons; [done|by apply H1].
Qed.

Lemma sorted_before_middle l1 c l2 x :
  StronglySorted before (l1 ++ c :: l2) → x ∈ l1 ++ c :: l2 → before x c → x ∈ l1.
Proof.
  induction l1 as [|y l1 IH]; simpl; intros Hs Hx Hb.
  - apply StronglySorted_inv in Hs as [_ Hc]. exfalso.
    apply elem_of_cons in Hx as [->|Hx]; [by apply before_irrefl in Hb|].
    rewrite Forall_forall in Hc. apply (before_irrefl c).
    eapply before_trans; [by apply Hc|done].
  - apply StronglySorted_inv in Hs as [Hs _].
    apply elem_of_cons in Hx as [->|Hx]; [by left|]. right. by apply IH.
Qed.

Lemma indexes_bucket_sorted tix targets k bucket :
  indexes tix targets → tix !! k = Some bucket → StronglySorted before bucket.
Proof.
  intros (l0 & H4 & -> & _) Hb. rewrite lookup_index_of, extend_None in Hb by done.
  assert (bucket = sort_by_date (candidates (λ _, true) k 0 l0)) as ->.
  { destruct (candidates (λ _, true) k 0 l0); [done|]. by injection Hb. }
  apply sort_by_date_before, candidates_increasing.
Qed.

(** The candidate the scan accepts comes before every other free
    candidate of the source row, in the order of dates and positions. *)
Lemma choose_earliest tix targets row c j' et' d' :
  indexes tix targets →
  choose tix targets row = Some c →
  targets !! j' = Some et' → compatible row (original_row et') →
  row_date (original_row et') = Some d' → before (d', j') c →
  matched et' = true.
Proof.
  intros Hix Hch Het' (Hk & sd & d'' & Hsd & Hd'' & Hdiff) Hd' Hb. unfold choose in Hch.
  rewrite Hsd in Hch. rewrite Hd' in Hd''. injection Hd'' as <-.
  destruct (tix !! key_of row) as [bucket|] eqn:Hbk; [|done].
  pose proof (indexes_bucket_sorted _ _ _ _ Hix Hbk) as Hs.
  assert ((d', j') ∈ bucket) as Hin.
  { destruct (proj2 (indexes_elem tix targets (key_of row) d' j' Hix))
      as (bucket' & Hb' & Hc'); [by exists et'|]. congruence. }
  apply find_split in Hch as (l1 & l2 & -> & Hl1).
  pose proof (Hl1 _ (sorted_before_middle _ _ _ _ Hs Hin Hb)) as Hacc.
  unfold acceptable in Hacc. simpl in Hacc. rewrite Het' in Hacc.
  apply andb_false_iff in Hacc as [Hm|Hf].
  - by destruct (matched et').
  - apply Z.leb_gt in Hf. lia.
Qed.

Lemma choose_Some_date (tix : index) targets row c :
  indexes tix targets → choose tix targets row = Some c →
  ∃ et, targets !! c.2 = Some et ∧ row_date (original_row et) = Some c.1.
Proof.
  intros Hix. unfold choose.
  destruct (row_date row) as [sd|]; [|done].
  destruct (tix !! key_of row) as [bucket|] eqn:Hb; [|done].
  intros [Hc _]%find_some. apply list_elem_of_In in Hc. destruct c as [d j].
  destruct (indexes_sound _ _ Hix _ _ d j Hb Hc) as (et & ? & ? & _). by exists et.
Qed.

Lemma matched_b_paired n j eb :
  (n ≤ length ta)%nat →
  processed_b (states ta tb n) !! j = Some eb → matched eb = true →
  ∃ i', (i' < n)%nat ∧ (i', j) ∈ pairs_upto ta tb n.
Proof.
  intros Hn Heb Hm. pose proof (invariant_first ta tb n Hn) as Hinv.
  assert (j ∈ (pairs_upto ta tb n).*2) as Hj.
  { apply (inv_matched_b _ _ _ Hinv). unfold flag. by rewrite Heb; simpl; rewrite Hm. }
  apply list_elem_of_fmap in Hj as ([i' j0] & -> & Hp). exists i'.
  split; [by eapply pairs_upto_lt|done].
Qed.

Lemma served_first n : (n ≤ length ta)%nat → served ta tb n.
Proof.
  induction n as [|n IH]; intros Hn.
  { split; [intros; lia|]. intros i j j' ra rb rb' d d' Hp. by apply elem_of_nil in Hp. }
  destruct IH as [IH1 IH2]; [lia|].
  pose proof (invariant_first ta tb n ltac:(lia)) as Hinv.
  assert (∀ p, p ∈ pairs_upto ta tb n → p ∈ pairs_upto ta tb (S n)) as Hmono.
  { intros p. apply pairs_upto_mono; lia. }
  destruct (lookup_lt_is_Some_2 (processed_a (states ta tb n)) n) as [ea Hea].
  { rewrite length_a. lia. }
  assert (matched ea = false) as Hma.
  { pose proof (inv_unvisited _ _ _ Hinv n ltac:(lia)) as Hu. unfold flag in Hu.
    rewrite Hea in Hu. simpl in Hu. destruct (matched ea); congruence. }
  pose proof (states_first ta tb n ltac:(lia)) as Hst.
  unfold visited in Hst. simpl in Hst. rewrite Hea, Hma in Hst.
  destruct (choose _ _ _) as [c|] eqn:Hc.
  - (* the source and the chosen target are marked *)
    destruct (choose_sound _ _ _ _ (indexes_sound _ _ (indexes_b ta tb n)) Hc)
      as (eb & Heb & Hmb & Hcomp).
    assert (pairs_upto ta tb (S n) = pairs_upto ta tb n ++ [(n, c.2)]) as HP.
    { rewrite pairs_upto_S by lia. rewrite Hst. by erewrite new_pairs_mark. }
    assert (processed_a (states ta tb (S n))
            = alter found n (processed_a (states ta tb n))) as HA.
    { by rewrite Hst, mark_A_B. }
    split.
    + intros i j ra rb Hi Hra Hrb Hcp. rewrite HA, flag_alter_found.
      destruct (decide (n = i)) as [<-|Hne].
      { left. unfold flag. by rewrite Hea. }
      destruct (IH1 i j ra rb ltac:(lia) Hra Hrb Hcp) as [H|(i' & ? & ?)]; [by left|].
      right. exists i'. split; [done|]. by apply Hmono.
    + intros i j j' ra rb rb' d d' Hp Hra Hrb Hrb' Hcp Hd Hd' Hbef.
      rewrite HP in Hp. apply elem_of_app in Hp as [Hp|Hp%list_elem_of_singleton].
      { destruct (IH2 i j j' ra rb rb' d d' Hp Hra Hrb Hrb' Hcp Hd Hd' Hbef)
          as (i' & ? & ?). exists i'. split; [done|]. by apply Hmono. }
      injection Hp as -> ->.
      destruct (row_lookup_b ta tb n j' rb' Hrb') as (eb' & Heb' & <-).
      apply lookup_row_a in Hea. apply lookup_row_b in Heb.
      assert (ra = original_row ea) as -> by congruence.
      assert (rb = original_row eb) as -> by congruence.
      assert (c = (d, c.2)) as Hcd.
      { destruct (choose_Some_date _ _ _ _ (indexes_b ta tb n) Hc) as (et & Het & Hdt).
        apply lookup_row_b in Het. destruct c as [dc jc]. simpl in *. congruence. }
      assert (matched eb' = true) as Hm'.
      { eapply (choose_earliest _ _ _ _ j' eb' d' (indexes_b ta tb n) Hc); try done.
        by rewrite Hcd. }
      destruct (matched_b_paired n j' eb' ltac:(lia) Heb' Hm') as (i' & ? & ?).
      exists i'. split; [done|]. by apply Hmono.
  - (* nothing changes *)
    assert (pairs_upto ta tb (S n) = pairs_upto ta tb n) as HP.
    { rewrite pairs_upto_S by lia. rewrite Hst, new_pairs_same. apply app_nil_r. }
    unfold served. rewrite HP, Hst. split; [|done].
    intros i j ra rb Hi Hra Hrb Hcp.
    destruct (decide (i = n)) as [->|Hne]; [|apply (IH1 i j ra rb); [lia|done..]].
    right. destruct (row_lookup_b ta tb n j rb Hrb) as (eb & Heb & <-).
    apply lookup_row_a in Hea. assert (ra = original_row ea) as -> by congruence.
    eapply matched_b_paired; [lia|done|].
    by eapply choose_None; [apply (indexes_b ta tb n)|..].
Qed.

Lemma served_final : served ta tb (length ta + length tb).
Proof.
  destruct (served_first (length ta) ltac:(lia)) as [H1 H2].
  unfold served. rewrite states_second, pairs_upto_second by lia. split; [|done].
  intros i j ra rb Hi Hra Hrb Hc. apply (H1 i j ra rb); [|done..].
  apply lookup_lt_Some in Hra. unfold rows in Hra. by rewrite length_fmap in Hra.
Qed.

End priority.

(** * Further properties of [reconcile_accounts] *)

Section further.

Lemma compatible_intro rowa rowb k da db :
  create_index_key (normalize_row rowa) = Ok k →
  create_index_key (normalize_row rowb) = Ok k →
  parse_date (date_field rowa) = Ok (Some da) →
  parse_date (date_field rowb) = Ok (Some db) →
  Z.abs (PyDate.sub_days da db) ≤ 1 →
  compatible (normalize_row rowa) (normalize_row rowb).
Proof.
  intros Hka%create_index_key_key_of Hkb%create_index_key_key_of
    Hda%parse_date_row_date Hdb%parse_date_row_date Hd.
  split; [congruence|]. by exists da, db.
Qed.

Lemma nodup_below (l : list nat) n :
  NoDup l → (∀ x, x ∈ l → (x < n)%nat) → (length l ≤ n)%nat.
Proof.
  intros Hnd Hlt. trans (length (seq 0 n)); [|by rewrite length_seq].
  apply submseteq_length.
  apply NoDup_submseteq; [done|]. intros x Hx. apply elem_of_seq. specialize (Hlt x Hx). lia.
Qed.

Lemma unpaired_missing (ta tb : list raw_row) :
  (∀ p, p ∉ matched_pairs ta tb) →
  result_rows (processed_a (states ta tb (length ta + length tb)))
  = (λ row, normalize_row row ++ ["MISSING"]) <$> ta
  ∧ result_rows (processed_b (states ta tb (length ta + length tb)))
    = (λ row, normalize_row row ++ ["MISSING"]) <$> tb.
Proof.
  intros Hnone. pose proof (invariant_final ta tb) as Hinv. split.
  - apply list_eq. intros i. rewrite list_lookup_fmap.
    destruct (ta !! i) as [row|] eqn:Hi; simpl.
    + destruct (found_or_missing ta _ i row (rows_a ta tb _) (inv_consistent_a _ _ _ Hinv) Hi)
        as [[Hf _]|(_ & _ & H)]; [|done].
      apply is_found_a in Hf as [j Hp]. by apply Hnone in Hp.
    + apply lookup_ge_None_2. unfold result_rows. rewrite length_fmap, length_a.
      by apply lookup_ge_None_1.
  - apply list_eq. intros i. rewrite list_lookup_fmap.
    destruct (tb !! i) as [row|] eqn:Hi; simpl.
    + destruct (found_or_missing tb _ i row (rows_b ta tb _) (inv_consistent_b _ _ _ Hinv) Hi)
        as [[Hf _]|(_ & _ & H)]; [|done].
      apply is_found_b in Hf as [j Hp]. by apply Hnone in Hp.
    + apply lookup_ge_None_2. unfold result_rows. rewrite length_fmap, length_b.
      by apply lookup_ge_None_1.
Qed.

End further.

(** X1. The second passage never marks an entry: in the state the first
    passage leaves, [find_and_mark] returns MISSING for every unmatched
    entry of B, the second passage returns that state, and the result of
    [reconcile_accounts] is read off it. *)
Theorem second_passage_idle (ta tb : list raw_row) :
  ∃ (σ : state) (indexed_a : index),
    run ta tb (length ta) 0 = Ok σ
    ∧ build_index (preprocess ta) = Ok indexed_a
    ∧ (∀ j e, processed_b σ !! j = Some e → matched e = false →
         find_and_mark (B, j) indexed_a A σ = Ok ("MISSING", σ))
    ∧ passage B indexed_a A (seq 0 (length tb)) σ = Ok σ
    ∧ reconcile_accounts ta tb
      = Ok (result_rows (processed_a σ), result_rows (processed_b σ)).
Proof.
  exists (states ta tb (length ta)), (index_of (preprocess ta)).
  pose proof (indexes_sound _ _ (indexes_a ta tb (length ta))) as Hs.
  split; [|split; [|split; [|split]]].
  - rewrite run_states by lia. by rewrite Nat.add_0_r.
  - apply build_index_of, rows4_preprocess.
  - intros j e He Hm.
    rewrite (find_and_mark_spec B j _ A _ e He).
    + destruct (choose _ _ _) as [c|] eqn:Hc; [|done]. exfalso.
      destruct (choose_sound _ _ _ _ Hs Hc) as (ea & Hea & Hma & Hcomp).
      pose proof (invariant_first ta tb (length ta) ltac:(lia)) as Hinv.
      destruct (inv_maximal _ _ _ Hinv c.2 j (original_row ea) (original_row e)) as [H|H].
      * apply lookup_lt_Some in Hea. simpl in Hea. by rewrite length_a in Hea.
      * by eapply lookup_row_a.
      * by eapply lookup_row_b.
      * by apply compatible_sym.
      * unfold flag in H. simpl in Hea. rewrite Hea in H. simpl in H. congruence.
      * unfold flag in H. rewrite He in H. simpl in H. congruence.
    + pose proof (rows4_states ta tb (length ta) B) as H4.
      by eapply Forall_lookup_1 in H4.
    + by apply in_range_sound.
  - rewrite passage_spec.
    + by rewrite second_passage_sound.
    + intros i Hi%elem_of_seq. simpl. rewrite length_b. lia.
    + apply (rows4_states ta tb _ B).
    + by apply in_range_sound.
  - by rewrite reconcile_accounts_states, states_second.
Qed.

(** X2. When a record of A and a record of B have the same key and dates
    at most one day apart, at least one of them ends FOUND; and if the
    record of A ends MISSING, the record of B is FOUND, paired with a
    record of A that comes earlier in the ledger. *)
Theorem no_missed_match (ta tb : list raw_row) (i j : nat) (rowa rowb : raw_row)
    (k : string * string * string) (da db : date) :
  ta !! i = Some rowa → tb !! j = Some rowb →
  create_index_key (normalize_row rowa) = Ok k →
  create_index_key (normalize_row rowb) = Ok k →
  parse_date (date_field rowa) = Ok (Some da) →
  parse_date (date_field rowb) = Ok (Some db) →
  Z.abs (PyDate.sub_days da db) ≤ 1 →
  ∃ ra rb,
    reconcile_accounts ta tb = Ok (ra, rb)
    ∧ (is_found ra i ∨ is_found rb j)
    ∧ (is_missing ra i →
         is_found rb j ∧ ∃ i', (i' < i)%nat ∧ (i', j) ∈ matched_pairs ta tb).
Proof.
  intros Ha Hb Hka Hkb Hda Hdb Hd.
  pose proof (compatible_intro _ _ _ _ _ Hka Hkb Hda Hdb Hd) as Hcomp.
  rewrite reconcile_accounts_states. eexists _, _. split; [done|].
  pose proof (invariant_final ta tb) as Hinv.
  destruct (served_final ta tb) as [Hserved _].
  assert (is_found (result_rows (processed_a (states ta tb (length ta + length tb)))) i
          ∨ ∃ i', (i' < i)%nat ∧ (i', j) ∈ matched_pairs ta tb) as Hcases.
  { destruct (Hserved i j (normalize_row rowa) (normalize_row rowb)) as [H|H];
      [apply lookup_lt_Some in Ha; lia|by apply rows_lookup..|done| |by right].
    left. apply is_found_result;
      [apply (rows4_states ta tb _ A)|apply (inv_consistent_a _ _ _ Hinv)|done]. }
  split.
  - destruct Hcases as [H|(i' & _ & H)]; [by left|]. right. apply is_found_b. eauto.
  - intros (row & Hrow & Hst). destruct Hcases as [(row' & Hrow' & Hst')|(i' & Hlt & H)].
    + rewrite Hrow in Hrow'. injection Hrow' as <-. congruence.
    + split; [apply is_found_b|]; eauto.
Qed.

Lemma no_missed_match_witness :
  ∃ ra rb,
    reconcile_accounts
      [RowSeq [CText "2024-01-01"; CText "Sales"; CText "100.00"; CText "Alice"];
       RowSeq [CText "2024-01-02"; CText "Sales"; CText "100.00"; CText "Alice"]]
      ledger_jan1 = Ok (ra, rb)
    ∧ (is_found ra 1 ∨ is_found rb 0)
    ∧ (is_missing ra 1 →
         is_found rb 0
         ∧ ∃ i', (i' < 1)%nat
                 ∧ (i', 0%nat) ∈ matched_pairs
                     [RowSeq [CText "2024-01-01"; CText "Sales"; CText "100.00";
                              CText "Alice"];
                      RowSeq [CText "2024-01-02"; CText "Sales"; CText "100.00";
                              CText "Alice"]]
                     ledger_jan1).
Proof.
  apply (no_missed_match
           [RowSeq [CText "2024-01-01"; CText "Sales"; CText "100.00"; CText "Alice"];
            RowSeq [CText "2024-01-02"; CText "Sales"; CText "100.00"; CText "Alice"]]
           ledger_jan1 1 0
           (RowSeq [CText "2024-01-02"; CText "Sales"; CText "100.00"; CText "Alice"])
           (RowSeq [CText "2024-01-01"; CText "Sales"; CText "100.00"; CText "Alice"])
           ("sales", "100.000000", "alice") (PyDate.Date 2024 1 2) (PyDate.Date 2024 1 1));
    try (vm_compute; reflexivity).
  vm_compute. discriminate.
Defined.

(** X3. The partner of a record of A is the first free candidate in the
    order of dates, then positions: a record of B with the same key, a date
    within one day of the record of A and a place before the partner in
    that order is paired with a record of A that comes earlier in the
    ledger. *)
Theorem earliest_partner (ta tb : list raw_row) (i j j' : nat)
    (rowa rowb rowb' : raw_row) (k : string * string * string) (da d d' : date) :
  (i, j) ∈ matched_pairs ta tb →
  ta !! i = Some rowa → tb !! j = Some rowb → tb !! j' = Some rowb' →
  create_index_key (normalize_row rowa) = Ok k →
  create_index_key (normalize_row rowb') = Ok k →
  parse_date (date_field rowa) = Ok (Some da) →
  parse_date (date_field rowb) = Ok (Some d) →
  parse_date (date_field rowb') = Ok (Some d') →
  Z.abs (PyDate.sub_days da d') ≤ 1 →
  before (d', j') (d, j) →
  ∃ i', (i' < i)%nat ∧ (i', j') ∈ matched_pairs ta tb.
Proof.
  intros Hp Ha Hb Hb' Hka Hkb' Hda Hd Hd' Hdiff Hbef.
  destruct (served_final ta tb) as [_ Hearliest].
  apply (Hearliest i j j' (normalize_row rowa) (normalize_row rowb) (normalize_row rowb') d d');
    try done; try by apply rows_lookup.
  - by eapply compatible_intro.
  - by apply parse_date_row_date.
  - by apply parse_date_row_date.
Qed.

Lemma earliest_partner_witness :
  ∃ i', (i' < 1)%nat
        ∧ (i', 0%nat) ∈ matched_pairs (ledger_jan1 ++ ledger_jan1) (ledger_jan2 ++ ledger_jan2).
Proof.
  apply (earliest_partner (ledger_jan1 ++ ledger_jan1) (ledger_jan2 ++ ledger_jan2) 1 1 0
           (RowSeq [CText "2024-01-01"; CText "Sales"; CText "100.00"; CText "Alice"])
           (RowSeq [CText "2024-01-02"; CText "Sales"; CText "100.00"; CText "Alice"])
           (RowSeq [CText "2024-01-02"; CText "Sales"; CText "100.00"; CText "Alice"])
           ("sales", "100.000000", "alice")
           (PyDate.Date 2024 1 1) (PyDate.Date 2024 1 2) (PyDate.Date 2024 1 2));
    try (vm_compute; reflexivity).
  - apply (bool_decide_unpack _). by vm_compute.
  - vm_compute. discriminate.
  - right. split; [reflexivity|]. simpl. lia.
Defined.

(** X4. Reconciling against an empty ledger marks nothing: every row of
    the other ledger comes back normalized with the status MISSING. *)
Theorem empty_ledger (t : list raw_row) :
  reconcile_accounts t [] = Ok ((λ row, normalize_row row ++ ["MISSING"]) <$> t, [])
  ∧ reconcile_accounts [] t = Ok ([], (λ row, normalize_row row ++ ["MISSING"]) <$> t).
Proof.
  split; rewrite reconcile_accounts_states.
  - destruct (unpaired_missing t []) as [-> ->]; [|done].
    intros [i j] (? & ? & _ & Hj & _)%matched_pairs_compatible. done.
  - destruct (unpaired_missing [] t) as [-> ->]; [|done].
    intros [i j] (? & ? & Hi & _)%matched_pairs_compatible. done.
Qed.

(** X5. No more rows are FOUND than the shorter ledger has records. *)
Theorem found_at_most (ta tb : list raw_row) :
  ∃ ra rb,
    reconcile_accounts ta tb = Ok (ra, rb)
    ∧ (length (found_rows ra) ≤ length ta `min` length tb)%nat
    ∧ (length (found_rows rb) ≤ length ta `min` length tb)%nat.
Proof.
  rewrite reconcile_accounts_states. eexists _, _. split; [done|].
  pose proof (invariant_final ta tb) as Hinv.
  pose proof (inv_nodup_a _ _ _ Hinv) as Hnda. pose proof (inv_nodup_b _ _ _ Hinv) as Hndb.
  rewrite !found_rows_result by (apply (rows4_states ta tb _ A) || apply (rows4_states ta tb _ B)).
  destruct (inv_count _ _ _ Hinv) as [-> ->].
  assert (length (pairs_upto ta tb (length ta + length tb)) ≤ length ta)%nat.
  { rewrite <- (length_fmap fst). apply nodup_below; [done|].
    intros i (j & Hp)%list_elem_of_fmap. destruct Hp as [-> Hp]. destruct j as [i j].
    apply matched_pairs_compatible in Hp as (? & ? & Hi & _). by apply lookup_lt_Some in Hi. }
  assert (length (pairs_upto ta tb (length ta + length tb)) ≤ length tb)%nat.
  { rewrite <- (length_fmap snd). apply nodup_below; [done|].
    intros j' (p & Hp)%list_elem_of_fmap. destruct Hp as [-> Hp]. destruct p as [i j].
    apply matched_pairs_compatible in Hp as (? & ? & _ & Hj & _). by apply lookup_lt_Some in Hj. }
  lia.
Qed.

(** * Reading the ledgers *)

Lemma normalize_row_fields row f : f ∈ normalize_row row → PyStr.strip f = f.
Proof.
  intros (j & Hj)%list_elem_of_lookup.
  assert (j < 4)%nat as Hlt.
  { apply lookup_lt_Some in Hj. by rewrite normalize_row_length in Hj. }
  rewrite normalize_row_lookup in Hj by done. injection Hj as <-. apply strip_idemp.
Qed.

Lemma cell_text_csv_row (row : list string) j s :
  row !! j = Some s → cell_text (csv_row row) j = s.
Proof. intros H. unfold cell_text, csv_row. simpl. by rewrite list_lookup_fmap, H. Qed.

(** Normalizing a normalized row changes nothing. *)
Lemma normalize_row_idemp row :
  normalize_row (csv_row (normalize_row row)) = normalize_row row.
Proof.
  apply list_eq. intros j. destruct (decide (j < 4)%nat) as [Hj|Hj].
  - rewrite !normalize_row_lookup by done.
    pose proof (normalize_row_lookup row j Hj) as H.
    erewrite cell_text_csv_row by done. by rewrite strip_idemp.
  - rewrite !lookup_ge_None_2; [done|rewrite normalize_row_length; lia..].
Qed.

Lemma rows_csv_rows t : rows (csv_row <$> rows t) = rows t.
Proof.
  unfold rows. rewrite <- !list_fmap_compose. apply list_fmap_ext.
  intros i row _. simpl. apply normalize_row_idemp.
Qed.


Lemma read_rows_spec reader stop rows :
  read_rows reader stop rows
  = match stop with Some e => inl e | None => inr (rows ++ ledger reader) end.
Proof.
  revert rows. induction reader as [|row reader IH]; intros rows; simpl.
  - destruct stop; [done|]. unfold ledger. simpl. by rewrite app_nil_r.
  - assert (ledger (row :: reader)
            = if kept row then normalize_row (csv_row row) :: ledger reader
              else ledger reader) as ->.
    { unfold ledger. rewrite filter_cons. destruct (kept row).
      - by rewrite decide_True.
      - by rewrite decide_False. }
    unfold kept. destruct (is_comment row); simpl; [apply IH|].
    destruct (all_empty _); simpl; [apply IH|].
    rewrite IH. destruct stop; [done|]. by rewrite <- app_assoc.
Qed.

Lemma read_csv_file_ledger fs path :
  stopped (fs path) = None →
  read_csv_file fs path = ([], Ok (ledger (yielded (fs path)))).
Proof. intros H. unfold read_csv_file. by rewrite read_rows_spec, H. Qed.

Lemma read_csv_file_stopped fs path e :
  stopped (fs path) = Some e →
  read_csv_file fs path
  = match e with
    | IOError msg | CsvError msg =>
        ([Print ("Erro ao ler o arquivo CSV " ++ path ++ ": " ++ msg)%string], Ok [])
    | OtherError e => ([], Raise e)
    end.
Proof. intros H. unfold read_csv_file. rewrite read_rows_spec, H. by destruct e. Qed.

Lemma read_csv_file_Ok fs path o rows :
  read_csv_file fs path = (o, Ok rows) →
  rows = [] ∨ rows = ledger (yielded (fs path)).
Proof.
  destruct (stopped (fs path)) as [e|] eqn:Hs.
  - rewrite (read_csv_file_stopped _ _ _ Hs). destruct e; intros [= <- <-]; by left.
  - rewrite (read_csv_file_ledger _ _ Hs). intros [= <- <-]. by right.
Qed.

Lemma all_empty_spec (row : list string) :
  all_empty row = false ↔ ∃ f, f ∈ row ∧ f ≠ EmptyString.
Proof.
  unfold all_empty. induction row as [|c row IH]; simpl.
  - split; [done|]. by intros (f & ?%elem_of_nil & _).
  - destruct (String.eqb_spec c EmptyString) as [->|Hc]; simpl.
    + rewrite IH. split.
      * intros (f & Hf & Hne). exists f. split; [by right|done].
      * intros (f & Hf & Hne). apply elem_of_cons in Hf as [->|Hf]; [done|]. eauto.
    + split; [|done]. intros _. exists c. split; [left|done].
Qed.

Lemma elem_of_ledger reader row :
  row ∈ ledger reader ↔
  ∃ r, r ∈ reader ∧ row = normalize_row (csv_row r)
       ∧ is_comment r = false ∧ all_empty row = false.
Proof.
  unfold ledger. rewrite list_elem_of_fmap. split.
  - intros (r & -> & [Hk Hr]%list_elem_of_filter). exists r.
    unfold kept in Hk. apply andb_true_iff in Hk as [H1%negb_true_iff H2%negb_true_iff]. done.
  - intros (r & Hr & -> & H1 & H2). exists r. split; [done|].
    apply list_elem_of_filter. split; [|done]. unfold kept. by rewrite H1, H2.
Qed.

Lemma is_comment_normalized r :
  is_comment r = false → is_comment (normalize_row (csv_row r)) = false.
Proof.
  destruct r as [|c r]; simpl; [done|]. intros H. by rewrite strip_idemp.
Qed.

Lemma kept_ledger reader row : row ∈ ledger reader → kept row = true ∧ normalize_row (csv_row row) = row.
Proof.
  intros (r & _ & -> & Hc & He)%elem_of_ledger.
  assert (normalize_row (csv_row (normalize_row (csv_row r))) = normalize_row (csv_row r)) as Hn
    by apply normalize_row_idemp.
  split; [|done]. unfold kept. by rewrite Hn, He, is_comment_normalized.
Qed.

Lemma ledger_idemp reader : ledger (ledger reader) = ledger reader.
Proof.
  unfold ledger at 1.
  assert (Forall (λ row, kept row = true ∧ normalize_row (csv_row row) = row) (ledger reader))
    as H by (apply Forall_forall; intros row; apply kept_ledger).
  induction H as [|row l [Hk Hn] _ IH]; [done|].
  rewrite filter_cons, decide_True by done. rewrite fmap_cons. by rewrite Hn, IH.
Qed.

Lemma rows_ledger reader : rows (csv_row <$> ledger reader) = ledger reader.
Proof.
  unfold rows. rewrite <- list_fmap_compose.
  assert (Forall (λ row, kept row = true ∧ normalize_row (csv_row row) = row) (ledger reader))
    as H by (apply Forall_forall; intros row; apply kept_ledger).
  induction H as [|row l [Hk Hn] _ IH]; [done|]. rewrite fmap_cons. simpl. by rewrite Hn, IH.
Qed.

Lemma rows_read fs path o t :
  read_csv_file fs path = (o, Ok t) → rows (csv_row <$> t) = t.
Proof. intros [->| ->]%read_csv_file_Ok; [done|apply rows_ledger]. Qed.

(** X6. When the reader reaches the end of the file, [read_csv_file]
    prints nothing and returns, in the order of the file, the normalized
    rows of the file that are not comments and not blank. *)
Theorem read_csv_file_rows (fs : filesystem) (file_path : string) :
  stopped (fs file_path) = None →
  read_csv_file fs file_path
  = ([], Ok ((λ row, normalize_row (csv_row row))
               <$> filter (λ row, kept row = true) (yielded (fs file_path)))).
Proof. apply read_csv_file_ledger. Qed.

Lemma read_csv_file_rows_witness :
  read_csv_file
    (λ _, Reading [["# ledger"]; []; ["2024-01-01 "; "Sales"; "100.00"; "Alice"; "x"];
                   [" "; ""]; ["2024-01-02"; "Sales"]] None)
    "transactions1.csv"
  = ([], Ok ((λ row, normalize_row (csv_row row))
               <$> filter (λ row, kept row = true)
                     [["# ledger"]; []; ["2024-01-01 "; "Sales"; "100.00"; "Alice"; "x"];
                      [" "; ""]; ["2024-01-02"; "Sales"]])).
Proof.
  apply (read_csv_file_rows
           (λ _, Reading [["# ledger"]; []; ["2024-01-01 "; "Sales"; "100.00"; "Alice"; "x"];
                          [" "; ""]; ["2024-01-02"; "Sales"]] None)
           "transactions1.csv").
  reflexivity.
Defined.

(** X7. Every row [read_csv_file] returns has four fields without
    surrounding whitespace, at least one of them not empty, and a first
    field that does not start with [#]. *)
Theorem read_csv_file_shape (fs : filesystem) (file_path : string)
    (o : list output) (rows : list (list string)) (row : list string) :
  read_csv_file fs file_path = (o, Ok rows) → row ∈ rows →
  length row = 4%nat
  ∧ (∀ f, f ∈ row → PyStr.strip f = f)
  ∧ (∃ f, f ∈ row ∧ f ≠ EmptyString)
  ∧ String.prefix "#" (field row 0) = false.
Proof.
  intros [->| ->]%read_csv_file_Ok Hrow; [by apply elem_of_nil in Hrow|].
  apply elem_of_ledger in Hrow as (r & _ & -> & Hc & He).
  split; [apply normalize_row_length|]. split; [apply normalize_row_fields|].
  split; [by apply all_empty_spec|].
  unfold field. rewrite normalize_row_lookup by lia. simpl.
  destruct r as [|c r]; [done|]. by erewrite cell_text_csv_row.
Qed.

Lemma read_csv_file_shape_witness :
  length ["2024-01-01"; "Sales"; "100.00"; "Alice"] = 4%nat
  ∧ (∀ f, f ∈ ["2024-01-01"; "Sales"; "100.00"; "Alice"] → PyStr.strip f = f)
  ∧ (∃ f, f ∈ ["2024-01-01"; "Sales"; "100.00"; "Alice"] ∧ f ≠ EmptyString)
  ∧ String.prefix "#" (field ["2024-01-01"; "Sales"; "100.00"; "Alice"] 0) = false.
Proof.
  apply (read_csv_file_shape
           (λ _, Reading [["# ledger"]; ["2024-01-01 "; "Sales"; "100.00"; "Alice"; "x"]] None)
           "transactions1.csv" []
           [["2024-01-01"; "Sales"; "100.00"; "Alice"]]).
  - vm_compute. reflexivity.
  - left.
Defined.

(** X8. When [open] or the reader raises an [IOError] or a [csv.Error],
    at the start or after any number of rows, [read_csv_file] prints one
    line with the path and the text of the exception and returns the empty
    list: the rows read before are dropped.  An exception of another class
    leaves the function. *)
Theorem read_csv_file_error (fs : filesystem) (file_path : string) (e : read_error) :
  stopped (fs file_path) = Some e →
  read_csv_file fs file_path
  = match e with
    | IOError msg | CsvError msg =>
        ([Print ("Erro ao ler o arquivo CSV " ++ file_path ++ ": " ++ msg)%string], Ok [])
    | OtherError e => ([], Raise e)
    end.
Proof. apply read_csv_file_stopped. Qed.

Lemma read_csv_file_error_witness :
  read_csv_file
    (λ _, Reading [["2024-01-01"; "Sales"; "100.00"; "Alice"]]
                  (Some (CsvError "line contains NUL")))
    "transactions1.csv"
  = ([Print "Erro ao ler o arquivo CSV transactions1.csv: line contains NUL"], Ok []).
Proof.
  apply (read_csv_file_error
           (λ _, Reading [["2024-01-01"; "Sales"; "100.00"; "Alice"]]
                         (Some (CsvError "line contains NUL")))
           "transactions1.csv" (CsvError "line contains NUL")).
  reflexivity.
Defined.

(** X9. Reading is idempotent: a file whose rows are the rows
    [read_csv_file] returned is read back as these rows. *)
Theorem read_csv_file_idempotent (fs fs' : filesystem) (file_path file_path' : string)
    (o : list output) (rows : list (list string)) :
  read_csv_file fs file_path = (o, Ok rows) →
  fs' file_path' = Reading rows None →
  read_csv_file fs' file_path' = ([], Ok rows).
Proof.
  intros Hr Hfs. rewrite read_csv_file_ledger by (by rewrite Hfs). rewrite Hfs. simpl.
  apply read_csv_file_Ok in Hr as [->| ->]; [done|]. by rewrite ledger_idemp.
Qed.

Lemma read_csv_file_idempotent_witness :
  read_csv_file (λ _, Reading [["2024-01-01"; "Sales"; "100.00"; "Alice"]] None)
    "copy.csv"
  = ([], Ok [["2024-01-01"; "Sales"; "100.00"; "Alice"]]).
Proof.
  apply (read_csv_file_idempotent
           (λ _, Reading [["# ledger"]; ["2024-01-01 "; "Sales"; "100.00"; "Alice"; "x"]] None)
           (λ _, Reading [["2024-01-01"; "Sales"; "100.00"; "Alice"]] None)
           "transactions1.csv" "copy.csv" []).
  - vm_compute. reflexivity.
  - reflexivity.
Defined.

(** * The script *)

Section script.

Lemma main_read fs o1 t1 o2 t2 :
  read_csv_file fs "transactions1.csv" = (o1, Ok t1) →
  read_csv_file fs "transactions2.csv" = (o2, Ok t2) →
  main fs
  = (o1 ++ o2
     ++ [Print "Resultado para transactions1:";
         PPrint (result_rows (processed_a (states (csv_row <$> t1) (csv_row <$> t2)
                                (length t1 + length t2))));
         Print (String (ascii_of_nat 10) "Resultado para transactions2:");
         PPrint (result_rows (processed_b (states (csv_row <$> t1) (csv_row <$> t2)
                                (length t1 + length t2))))],
     Ok tt).
Proof.
  intros H1 H2. unfold main, script_bind. rewrite H1. simpl. rewrite H2. simpl.
  rewrite reconcile_accounts_states, !length_fmap. simpl. done.
Qed.

Lemma read_csv_file_Raise fs path o e :
  read_csv_file fs path = (o, Raise e) ↔ o = [] ∧ stopped (fs path) = Some (OtherError e).
Proof.
  destruct (stopped (fs path)) as [e'|] eqn:Hs.
  - rewrite (read_csv_file_stopped _ _ _ Hs). destruct e'; naive_solver.
  - rewrite (read_csv_file_ledger _ _ Hs). naive_solver.
Qed.

Lemma read_csv_file_cases fs path :
  (∃ o t, read_csv_file fs path = (o, Ok t))
  ∨ (∃ e, read_csv_file fs path = ([], Raise e) ∧ stopped (fs path) = Some (OtherError e)).
Proof.
  destruct (stopped (fs path)) as [e'|] eqn:Hs.
  - rewrite (read_csv_file_stopped _ _ _ Hs). destruct e'; eauto.
  - rewrite (read_csv_file_ledger _ _ Hs). eauto.
Qed.

Lemma result_rows_read fs path o t (l : list entry) i row :
  read_csv_file fs path = (o, Ok t) →
  original_row <$> l = rows (csv_row <$> t) → Forall consistent l →
  t !! i = Some row →
  result_rows l !! i = Some (row ++ ["FOUND"])
  ∨ result_rows l !! i = Some (row ++ ["MISSING"]).
Proof.
  intros Hr Hl Hc Hi.
  assert (normalize_row (csv_row row) = row) as Hn.
  { pose proof (rows_read _ _ _ _ Hr) as Hrows.
    apply (f_equal (λ l, l !! i)) in Hrows. unfold rows in Hrows.
    rewrite !list_lookup_fmap, Hi in Hrows. simpl in Hrows. congruence. }
  destruct (found_or_missing (csv_row <$> t) l i (csv_row row) Hl Hc) as [[_ H]|(_ & _ & H)].
  - by rewrite list_lookup_fmap, Hi.
  - left. by rewrite H, Hn.
  - right. by rewrite H, Hn.
Qed.

End script.

(** X10. When both files are read, the script prints what reading
    printed, then the two headings, each followed by a result as long as
    the ledger read; row [i] of a result is row [i] of the ledger as
    [read_csv_file] returned it, followed by FOUND or MISSING. *)
Theorem main_output (fs : filesystem) (o1 o2 : list output)
    (transactions1 transactions2 : list (list string)) :
  read_csv_file fs "transactions1.csv" = (o1, Ok transactions1) →
  read_csv_file fs "transactions2.csv" = (o2, Ok transactions2) →
  ∃ out1 out2,
    main fs
    = (o1 ++ o2
       ++ [Print "Resultado para transactions1:"; PPrint out1;
           Print (String (ascii_of_nat 10) "Resultado para transactions2:"); PPrint out2],
       Ok tt)
    ∧ length out1 = length transactions1 ∧ length out2 = length transactions2
    ∧ (∀ i row, transactions1 !! i = Some row →
         out1 !! i = Some (row ++ ["FOUND"]) ∨ out1 !! i = Some (row ++ ["MISSING"]))
    ∧ (∀ j row, transactions2 !! j = Some row →
         out2 !! j = Some (row ++ ["FOUND"]) ∨ out2 !! j = Some (row ++ ["MISSING"])).
Proof.
  intros H1 H2. eexists _, _. split; [by apply main_read|].
  set (ta := csv_row <$> transactions1). set (tb := csv_row <$> transactions2).
  assert (length transactions1 = length ta) as -> by (unfold ta; by rewrite length_fmap).
  assert (length transactions2 = length tb) as -> by (unfold tb; by rewrite length_fmap).
  pose proof (invariant_final ta tb) as Hinv.
  unfold result_rows at 1 2. rewrite !length_fmap, length_a, length_b.
  split; [done|]. split; [done|]. split.
  - intros i row Hi.
    apply (result_rows_read fs "transactions1.csv" o1 transactions1); try done.
    + apply rows_a.
    + apply (inv_consistent_a _ _ _ Hinv).
  - intros j row Hj.
    apply (result_rows_read fs "transactions2.csv" o2 transactions2); try done.
    + apply rows_b.
    + apply (inv_consistent_b _ _ _ Hinv).
Qed.

Lemma main_output_witness :
  ∃ out1 out2,
    main (λ path, if String.eqb path "transactions1.csv"
                  then Reading [["# first"]; ["2024-01-01 "; "Sales"; "100.00"; "Alice"]] None
                  else Reading [["2024-01-02"; "sales"; "100"; "alice"]; []] None)
    = ([] ++ []
       ++ [Print "Resultado para transactions1:"; PPrint out1;
           Print (String (ascii_of_nat 10) "Resultado para transactions2:"); PPrint out2],
       Ok tt)
    ∧ length out1 = length [["2024-01-01"; "Sales"; "100.00"; "Alice"]]
    ∧ length out2 = length [["2024-01-02"; "sales"; "100"; "alice"]]
    ∧ (∀ i row, [["2024-01-01"; "Sales"; "100.00"; "Alice"]] !! i = Some row →
         out1 !! i = Some (row ++ ["FOUND"]) ∨ out1 !! i = Some (row ++ ["MISSING"]))
    ∧ (∀ j row, [["2024-01-02"; "sales"; "100"; "alice"]] !! j = Some row →
         out2 !! j = Some (row ++ ["FOUND"]) ∨ out2 !! j = Some (row ++ ["MISSING"])).
Proof.
  apply (main_output
           (λ path, if String.eqb path "transactions1.csv"
                    then Reading [["# first"]; ["2024-01-01 "; "Sales"; "100.00"; "Alice"]] None
                    else Reading [["2024-01-02"; "sales"; "100"; "alice"]; []] None)
           [] []
           [["2024-01-01"; "Sales"; "100.00"; "Alice"]]
           [["2024-01-02"; "sales"; "100"; "alice"]]);
    vm_compute; reflexivity.
Defined.

(** X11. A ledger that is empty, because its file has no record or
    could not be read, pairs with nothing: the script shows every record
    of both ledgers with the status MISSING. *)
Theorem main_empty_ledger (fs : filesystem) (o1 o2 : list output)
    (transactions1 transactions2 : list (list string)) :
  read_csv_file fs "transactions1.csv" = (o1, Ok transactions1) →
  read_csv_file fs "transactions2.csv" = (o2, Ok transactions2) →
  transactions1 = [] ∨ transactions2 = [] →
  main fs
  = (o1 ++ o2
     ++ [Print "Resultado para transactions1:";
         PPrint ((λ row, row ++ ["MISSING"]) <$> transactions1);
         Print (String (ascii_of_nat 10) "Resultado para transactions2:");
         PPrint ((λ row, row ++ ["MISSING"]) <$> transactions2)],
     Ok tt).
Proof.
  intros H1 H2 Hempty. rewrite (main_read _ _ _ _ _ H1 H2).
  set (ta := csv_row <$> transactions1). set (tb := csv_row <$> transactions2).
  assert (length transactions1 = length ta) as -> by (unfold ta; by rewrite length_fmap).
  assert (length transactions2 = length tb) as -> by (unfold tb; by rewrite length_fmap).
  destruct (unpaired_missing ta tb) as [-> ->].
  { intros [i j] (? & ? & Hi & Hj & _)%matched_pairs_compatible.
    unfold ta, tb in *. destruct Hempty as [-> | ->]; done. }
  fold (rows ta) (rows tb).
  assert (∀ t, (λ row, normalize_row row ++ ["MISSING"]) <$> t
               = (λ row, row ++ ["MISSING"]) <$> rows t) as Hf.
  { intros t. unfold rows. by rewrite <- list_fmap_compose. }
  rewrite !Hf. unfold ta, tb.
  by rewrite (rows_read _ _ _ _ H1), (rows_read _ _ _ _ H2).
Qed.

Lemma main_empty_ledger_witness :
  main (λ path, if String.eqb path "transactions1.csv"
                then Reading [] (Some (IOError "[Errno 2] No such file or directory"))
                else Reading [["2024-01-02"; "sales"; "100"; "alice"]] None)
  = ([Print "Erro ao ler o arquivo CSV transactions1.csv: [Errno 2] No such file or directory"]
     ++ []
     ++ [Print "Resultado para transactions1:";
         PPrint ((λ row, row ++ ["MISSING"]) <$> []);
         Print (String (ascii_of_nat 10) "Resultado para transactions2:");
         PPrint ((λ row, row ++ ["MISSING"]) <$> [["2024-01-02"; "sales"; "100"; "alice"]])],
     Ok tt).
Proof.
  apply (main_empty_ledger
           (λ path, if String.eqb path "transactions1.csv"
                    then Reading [] (Some (IOError "[Errno 2] No such file or directory"))
                    else Reading [["2024-01-02"; "sales"; "100"; "alice"]] None)
           [Print "Erro ao ler o arquivo CSV transactions1.csv: [Errno 2] No such file or directory"]
           [] [] [["2024-01-02"; "sales"; "100"; "alice"]]).
  - vm_compute. reflexivity.
  - vm_compute. reflexivity.
  - by left.
Defined.

(** X12. The script ends with an exception exactly when reading one of
    the two files raises one that is neither an [IOError] nor a
    [csv.Error], the first file being read first: [reconcile_accounts]
    adds no failure of its own. *)
Theorem main_raises (fs : filesystem) (e : exn) :
  (∃ o, main fs = (o, Raise e))
  ↔ stopped (fs "transactions1.csv") = Some (OtherError e)
    ∨ ((∀ e', stopped (fs "transactions1.csv") ≠ Some (OtherError e'))
       ∧ stopped (fs "transactions2.csv") = Some (OtherError e)).
Proof.
  destruct (read_csv_file_cases fs "transactions1.csv") as [(o1 & t1 & H1)|(e1 & H1 & Hs1)].
  - assert (∀ e', stopped (fs "transactions1.csv") ≠ Some (OtherError e')) as Hne.
    { intros e' Hs. pose proof (proj2 (read_csv_file_Raise fs _ [] e') (conj eq_refl Hs)).
      congruence. }
    destruct (read_csv_file_cases fs "transactions2.csv") as [(o2 & t2 & H2)|(e2 & H2 & Hs2)].
    + rewrite (main_read _ _ _ _ _ H1 H2). split.
      * intros (o & [= _]).
      * intros [Hs|[_ Hs]]; [by apply Hne in Hs|].
        pose proof (proj2 (read_csv_file_Raise fs _ [] e) (conj eq_refl Hs)). congruence.
    + assert (main fs = (o1 ++ [], Raise e2)) as ->.
      { unfold main, script_bind. rewrite H1. simpl. by rewrite H2. }
      split.
      * intros (o & [= _ ->]). right. done.
      * intros [Hs|[_ Hs]]; [by apply Hne in Hs|]. rewrite Hs2 in Hs. injection Hs as ->. eauto.
  - assert (main fs = ([], Raise e1)) as ->.
    { unfold main, script_bind. by rewrite H1. }
    split.
    + intros (o & [= _ ->]). by left.
    + intros [Hs|[Hne _]]; [|by apply Hne in Hs1]. rewrite Hs1 in Hs. injection Hs as ->. eauto.
Qed.

(** * Records added at the end of the first ledger *)

Section appended.

Variables ta tx tb : list raw_row.

Lemma visited_app tix pa ex pb n :
  (n < length pa)%nat →
  visited A tix B (State (pa ++ ex) pb) n
  = State (processed_a (visited A tix B (State pa pb) n) ++ ex)
          (processed_b (visited A tix B (State pa pb) n)).
Proof.
  intros Hn. unfold visited. simpl. rewrite lookup_app_l by done.
  destruct (pa !! n) as [e|]; [|done]. destruct (matched e); [done|].
  destruct (choose tix pb (original_row e)) as [c|]; [|done].
  unfold mark, assign, set_entries. simpl. f_equal.
  by rewrite alter_app_l.
Qed.

Lemma states_app n :
  (n ≤ length ta)%nat →
  states (ta ++ tx) tb n
  = State (processed_a (states ta tb n) ++ preprocess tx) (processed_b (states ta tb n)).
Proof.
  induction n as [|n IH]; intros Hn.
  - unfold states, initial, preprocess. simpl. by rewrite fmap_app.
  - rewrite (states_first (ta ++ tx) tb) by (rewrite length_app; lia).
    rewrite (states_first ta tb) by lia. rewrite IH by lia.
    pose proof (length_a ta tb n) as Hlen.
    destruct (states ta tb n) as [pa pb]. simpl in *. apply visited_app. lia.
Qed.

Lemma visited_take tix σ i n :
  (n ≤ i)%nat →
  take n (processed_a (visited A tix B σ i)) = take n (processed_a σ).
Proof.
  intros Hn. unfold visited. simpl.
  destruct (processed_a σ !! i) as [e|]; [|done]. destruct (matched e); [done|].
  destruct (choose _ _ _) as [c|]; [|done].
  unfold mark, assign, set_entries. simpl.
  by rewrite take_alter_ge.
Qed.

Lemma states_take k :
  (k ≤ length tx)%nat →
  take (length ta) (processed_a (states (ta ++ tx) tb (length ta + k)))
  = processed_a (states ta tb (length ta)).
Proof.
  induction k as [|k IH]; intros Hk.
  - rewrite Nat.add_0_r, states_app by lia. simpl.
    rewrite take_app_length'; [done|]. by rewrite length_a.
  - rewrite Nat.add_succ_r.
    rewrite (states_first (ta ++ tx) tb) by (rewrite length_app; lia).
    rewrite visited_take by lia. apply IH; lia.
Qed.

Lemma appended_a :
  take (length ta)
    (result_rows (processed_a (states (ta ++ tx) tb (length (ta ++ tx) + length tb))))
  = result_rows (processed_a (states ta tb (length ta + length tb))).
Proof.
  rewrite !states_second. unfold result_rows. rewrite <- fmap_take.
  rewrite length_app, states_take; done.
Qed.

Lemma appended_b j :
  is_found (result_rows (processed_b (states ta tb (length ta + length tb)))) j →
  is_found (result_rows (processed_b (states (ta ++ tx) tb (length (ta ++ tx) + length tb)))) j.
Proof.
  pose proof (invariant_final ta tb) as Hinv.
  pose proof (invariant_final (ta ++ tx) tb) as Hinv'.
  rewrite !is_found_result
    by (apply (rows4_states _ _ _ B) || apply (inv_consistent_b _ _ _ Hinv)
        || apply (inv_consistent_b _ _ _ Hinv')).
  rewrite (states_second ta tb). unfold flag.
  destruct (processed_b (states ta tb (length ta)) !! j) as [e|] eqn:He; [|done].
  simpl. intros [= Hm].
  assert (entries B (states (ta ++ tx) tb (length ta)) !! j = Some e) as He'.
  { rewrite states_app by lia. done. }
  pose proof (later_keeps_matched (ta ++ tx) tb (length ta)
                (length (ta ++ tx) + length tb) B j e
                ltac:(rewrite length_app; lia) He' Hm) as H.
  simpl in H. rewrite H. simpl. by rewrite Hm.
Qed.

End appended.

(** X13. Records added at the end of the first ledger do not change the
    result of the records before them: the first result of the longer
    ledger starts with the first result of the shorter one, and a record
    of the second ledger that was FOUND stays FOUND. *)
Theorem appended_records (ta tx tb : list raw_row) :
  ∃ ra rb ra' rb',
    reconcile_accounts ta tb = Ok (ra, rb)
    ∧ reconcile_accounts (ta ++ tx) tb = Ok (ra', rb')
    ∧ take (length ta) ra' = ra
    ∧ (∀ j, is_found rb j → is_found rb' j).
Proof.
  rewrite !reconcile_accounts_states. eexists _, _, _, _.
  split; [done|]. split; [done|]. split; [apply appended_a|apply appended_b].
Qed.

(** * Further consequences *)

Lemma nodup_snd_inj (l : list (nat * nat)) a b c :
  NoDup l.*2 → (a, c) ∈ l → (b, c) ∈ l → a = b.
Proof.
  induction l as [|[x y] l IH]; simpl; intros Hnd Ha Hb; [by apply elem_of_nil in Ha|].
  apply NoDup_cons in Hnd as [Hy Hnd].
  apply elem_of_cons in Ha as [Ha|Ha]; apply elem_of_cons in Hb as [Hb|Hb].
  - congruence.
  - exfalso. apply Hy. apply list_elem_of_fmap. exists (b, c). split; [simpl; congruence|done].
  - exfalso. apply Hy. apply list_elem_of_fmap. exists (a, c). split; [simpl; congruence|done].
  - by apply IH.
Qed.



(** X15. Pairs do not cross: when an earlier record of A and a later one
    are both paired, and the partner of the later one has the key of the
    earlier one and a date within one day of it, that partner does not
    come before the partner of the earlier record in the order of dates,
    then positions. *)
Theorem pairs_do_not_cross (ta tb : list raw_row) (i i' j j' : nat)
    (rowa rowb rowb' : raw_row) (k : string * string * string) (da d d' : date) :
  (i, j) ∈ matched_pairs ta tb → (i', j') ∈ matched_pairs ta tb → (i < i')%nat →
  ta !! i = Some rowa → tb !! j = Some rowb → tb !! j' = Some rowb' →
  create_index_key (normalize_row rowa) = Ok k →
  create_index_key (normalize_row rowb') = Ok k →
  parse_date (date_field rowa) = Ok (Some da) →
  parse_date (date_field rowb) = Ok (Some d) →
  parse_date (date_field rowb') = Ok (Some d') →
  Z.abs (PyDate.sub_days da d') ≤ 1 →
  ¬ before (d', j') (d, j).
Proof.
  intros Hp Hp' Hlt Ha Hb Hb' Hka Hkb' Hda Hd Hd' Hdiff Hbef.
  destruct (served_final ta tb) as [_ Hearliest].
  destruct (Hearliest i j j' (normalize_row rowa) (normalize_row rowb) (normalize_row rowb') d d')
    as (i'' & Hlt' & Hp''); try done; try by apply rows_lookup.
  - by eapply compatible_intro.
  - by apply parse_date_row_date.
  - by apply parse_date_row_date.
  - pose proof (inv_nodup_b _ _ _ (invariant_final ta tb)) as Hnd.
    pose proof (nodup_snd_inj _ _ _ _ Hnd Hp' Hp''). lia.
Qed.

Lemma pairs_do_not_cross_witness :
  ¬ before (PyDate.Date 2024 1 2, 1%nat) (PyDate.Date 2024 1 2, 0%nat).
Proof.
  apply (pairs_do_not_cross (ledger_jan1 ++ ledger_jan1) (ledger_jan2 ++ ledger_jan2) 0 1 0 1
           (RowSeq [CText "2024-01-01"; CText "Sales"; CText "100.00"; CText "Alice"])
           (RowSeq [CText "2024-01-02"; CText "Sales"; CText "100.00"; CText "Alice"])
           (RowSeq [CText "2024-01-02"; CText "Sales"; CText "100.00"; CText "Alice"])
           ("sales", "100.000000", "alice")
           (PyDate.Date 2024 1 1) (PyDate.Date 2024 1 2) (PyDate.Date 2024 1 2));
    try (vm_compute; reflexivity).
  - apply (bool_decide_unpack _). by vm_compute.
  - apply (bool_decide_unpack _). by vm_compute.
  - vm_compute. discriminate.
Defined.
